(** * Esports dashboard backend: the aggregation service

    A shallow embedding of [server/services/rawgServices.js]: the Twitch
    token cache ([twitchToken], [getTwitchAccessToken]), the per-game
    viewer lookup ([fetchLiveViewers]) and the three read operations
    ([fetchTrendingGames], [fetchGenreTrends], [fetchPlatformPerformance]).

    The module is asynchronous JavaScript.  Every function is written once,
    as a tree of its effects ([Async]): reads and writes of the module
    variable [twitchToken], axios calls, and the points where an [await]
    hands control back to the event loop.  Two interpreters give the trees
    their meaning: [run] awaits one call to completion, and [promise_all]
    interleaves the calls started by [games.map(async ...)] under an
    arbitrary order of arrival of their responses. *)

From Stdlib Require Import ZArith String Ascii List Lia Bool.
From Stdlib Require Import DecimalString DecimalZ.
From stdpp Require Import base list strings.
Import ListNotations.
Open Scope string_scope.
Open Scope list_scope.
Open Scope Z_scope.

(** ** JavaScript values

    Scalars as they appear in the JSON bodies and in the module's variables.
    Numbers are the integers among JavaScript's numbers, and NaN. *)

Inductive JsVal : Type :=
| VUndefined
| VNull
| VBool (b : bool)
| VNum (n : Z)
| VStr (s : string)
| VNaN.

(** [if (v)], [!v]: JavaScript's ToBoolean on scalars. *)
Definition truthy (v : JsVal) : bool :=
  match v with
  | VUndefined | VNull | VNaN => false
  | VBool b => b
  | VNum n => negb (n =? 0)
  | VStr s => negb (String.eqb s "")
  end.

(** [Number.MAX_SAFE_INTEGER]: up to it, in absolute value, a double holds
    an integer exactly and sums of integers are computed without rounding. *)
Definition max_safe_integer : Z := 2 ^ 53 - 1.

(** ** Errors *)

(** The error axios rejects with.  [response] is present when the server
    answered (a 4xx or 5xx status) and absent when the request never got an
    answer (DNS failure, refused connection, time-out); it holds
    [error.response.data]. *)
Record AxiosError : Type := {
  message : string;
  response : option JsVal
}.

Inductive Exn : Type :=
| AxiosErr (e : AxiosError)
| TypeError (msg : string)
| Error (msg : string).

(** [error.response] of a caught value. *)
Definition exn_response (error : Exn) : option JsVal :=
  match error with
  | AxiosErr e => response e
  | TypeError _ | Error _ => None
  end.

(** ** Provider data (the fields the module reads) *)

(** An entry of [GET helix/games]: [data[0].id]. *)
Record TwitchGame : Type := { twitch_id : JsVal }.

(** An entry of [GET helix/streams]: [stream.viewer_count], the integer the
    provider reports (Twitch documents the field as an integer).  An entry
    whose count is missing or is not an integer is outside this type. *)
Record TwitchStream : Type := { viewer_count : Z }.

(** [genre.name]. *)
Record Genre : Type := { genre_name : string }.

(** An entry of RAWG's [GET /games]: [game.id], [game.name],
    [game.background_image], [game.genres]. *)
Record RawgGame : Type := {
  game_id : JsVal;
  game_name : JsVal;
  background_image : JsVal;
  genres : list Genre
}.

(** An entry of RAWG's [GET /platforms]: [platform.slug], [platform.name],
    [platform.games_count]. *)
Record RawgPlatform : Type := {
  slug : JsVal;
  platform_name : JsVal;
  games_count : JsVal
}.

(** ** Requests and replies *)

(** The five HTTP requests of the module, with the parameters that vary.
    (Client id, client secret and API key are constants of the process.) *)
Inductive Request : Type :=
| PostTwitchToken
| GetTwitchGames (name token : JsVal)
| GetTwitchStreams (game token : JsVal)
| GetRawgGames (ordering : string) (page_size : Z)
| GetRawgPlatforms (ordering : string) (page_size : Z).

(** What a fulfilled request carries: [response.data.access_token],
    [response.data.data], [response.data.results].  An absent
    [access_token] is [VUndefined]. *)
Definition payload (r : Request) : Type :=
  match r with
  | PostTwitchToken => JsVal
  | GetTwitchGames _ _ => list TwitchGame
  | GetTwitchStreams _ _ => list TwitchStream
  | GetRawgGames _ _ => list RawgGame
  | GetRawgPlatforms _ _ => list RawgPlatform
  end.

(** The promise returned by axios settles one of two ways. *)
Inductive Reply (A : Type) : Type :=
| Fulfilled (a : A)
| Rejected (e : AxiosError).
Arguments Fulfilled {A} a.
Arguments Rejected {A} e.

(** The network as one call observes it: an answer to each request.  A call
    issues each request at most once, so this covers every behaviour of the
    providers during that call. *)
Definition Network : Type := forall r : Request, Reply (payload r).

(** ** Asynchronous computations *)

Inductive Outcome (A : Type) : Type :=
| Returns (a : A)
| Raises (e : Exn).
Arguments Returns {A} a.
Arguments Raises {A} e.

(** The effects of an [async] function, in program order. *)
Inductive Async (A : Type) : Type :=
| Ret (a : A)                                         (* return a *)
| Throw (e : Exn)                                     (* throw e *)
| ReadToken (k : JsVal -> Async A)                    (* ... twitchToken ... *)
| WriteToken (v : JsVal) (k : Async A)                (* twitchToken = v *)
| Call (r : Request) (k : Reply (payload r) -> Async A)  (* axios.get / axios.post *)
| Tick (k : Async A).                                 (* await of a settled promise *)
Arguments Ret {A} a.
Arguments Throw {A} e.
Arguments ReadToken {A} k.
Arguments WriteToken {A} v k.
Arguments Call {A} r k.
Arguments Tick {A} k.

Fixpoint bind {A B : Type} (m : Async A) (f : A -> Async B) : Async B :=
  match m with
  | Ret a => f a
  | Throw e => Throw e
  | ReadToken k => ReadToken (fun v => bind (k v) f)
  | WriteToken v k => WriteToken v (bind k f)
  | Call r k => Call r (fun x => bind (k x) f)
  | Tick k => Tick (bind k f)
  end.

(** [try { m } catch (error) { h error }]. *)
Fixpoint try_catch {A : Type} (m : Async A) (h : Exn -> Async A) : Async A :=
  match m with
  | Ret a => Ret a
  | Throw e => h e
  | ReadToken k => ReadToken (fun v => try_catch (k v) h)
  | WriteToken v k => WriteToken v (try_catch k h)
  | Call r k => Call r (fun x => try_catch (k x) h)
  | Tick k => Tick (try_catch k h)
  end.

(** [await f()] for an [async] function [f]: the caller continues one turn
    of the event loop after [f]'s promise settles. *)
Fixpoint await {A : Type} (m : Async A) : Async A :=
  match m with
  | Ret a => Tick (Ret a)
  | Throw e => Tick (Throw e)
  | ReadToken k => ReadToken (fun v => await (k v))
  | WriteToken v k => WriteToken v (await k)
  | Call r k => Call r (fun x => await (k x))
  | Tick k => Tick (await k)
  end.

(** [await axios.get(...)]: a rejection is thrown at the [await]. *)
Definition await_axios {A : Type} (r : Request) (k : payload r -> Async A) : Async A :=
  Call r (fun reply =>
    match reply with
    | Fulfilled x => k x
    | Rejected e => Throw (AxiosErr e)
    end).

Notation "'let!' x ':=' m 'in' k" := (bind m (fun x => k))
  (at level 10, x name, m at level 100, k at level 200).

(** ** The module *)

(** [getTwitchAccessToken].  The [catch] block first evaluates the argument
    [error.response.data] of [console.error], then throws. *)
Definition getTwitchAccessToken : Async JsVal :=
  ReadToken (fun twitchToken =>
  if truthy twitchToken then Ret twitchToken
  else
    try_catch
      (await_axios PostTwitchToken (fun access_token =>
       WriteToken access_token
       (ReadToken (fun twitchToken => Ret twitchToken))))
      (fun error =>
       match exn_response error with
       | None => Throw (TypeError "Cannot read properties of undefined (reading 'data')")
       | Some _ => Throw (Error "Could not get Twitch token")
       end)).

(** [streamsResponse.data.data.forEach(stream => totalViewers += stream.viewer_count)].
    The sum is taken in [Z]; the code adds doubles, which gives this sum as
    long as no partial sum leaves the safe integers (see [exact_counts]). *)
Definition sum_viewers (streams : list TwitchStream) : Z :=
  fold_left (fun totalViewers stream => totalViewers + viewer_count stream) streams 0.

(** The counts are small enough for the additions of the code to be exact:
    their absolute values add up to at most [max_safe_integer], so that, in
    whatever order they are added, every count and every partial sum is a
    safe integer. *)
Definition exact_counts (streams : list TwitchStream) : Prop :=
  fold_right Z.add 0 (map (fun stream => Z.abs (viewer_count stream)) streams)
  <= max_safe_integer.

(** [fetchLiveViewers].  ([console.log] and [console.error] only print:
    [error.message] is defined for every error.) *)
Definition fetchLiveViewers (gameName : JsVal) : Async Z :=
  if negb (truthy gameName) then Ret 0
  else
    try_catch
      (let! token := await getTwitchAccessToken in
       await_axios (GetTwitchGames gameName token) (fun games =>
       match games with
       | [] => Ret 0
       | first :: _ =>
           let gameId := twitch_id first in
           await_axios (GetTwitchStreams gameId token) (fun streams =>
           Ret (sum_viewers streams))
       end))
      (fun error => Ret 0).

(** ** Awaiting one call to completion *)

(** The module's state, and the requests sent so far (latest first). *)
Record State : Type := {
  twitchToken : JsVal;
  requests : list Request
}.

Definition set_token (v : JsVal) (st : State) : State :=
  {| twitchToken := v; requests := requests st |}.

Definition issue (r : Request) (st : State) : State :=
  {| twitchToken := twitchToken st; requests := r :: requests st |}.

Fixpoint run {A : Type} (net : Network) (m : Async A) (st : State) : Outcome A * State :=
  match m with
  | Ret a => (Returns a, st)
  | Throw e => (Raises e, st)
  | ReadToken k => run net (k (twitchToken st)) st
  | WriteToken v k => run net k (set_token v st)
  | Call r k => run net (k (net r)) (issue r st)
  | Tick k => run net k st
  end.

(** ** Calls in flight together

    An [async] function runs without interruption up to its next [await];
    there it is suspended until the awaited reply (or the next turn of the
    event loop) arrives.  Several calls in flight are resumed in whatever
    order their replies arrive. *)

Inductive Task (A : Type) : Type :=
| Settled (o : Outcome A)
| AwaitingReply (r : Request) (k : Reply (payload r) -> Async A)
| AwaitingTick (k : Async A).
Arguments Settled {A} o.
Arguments AwaitingReply {A} r k.
Arguments AwaitingTick {A} k.

(** Run up to the next suspension.  A request is sent when the call is made. *)
Fixpoint advance {A : Type} (m : Async A) (st : State) : Task A * State :=
  match m with
  | Ret a => (Settled (Returns a), st)
  | Throw e => (Settled (Raises e), st)
  | ReadToken k => advance (k (twitchToken st)) st
  | WriteToken v k => advance k (set_token v st)
  | Call r k => (AwaitingReply r k, issue r st)
  | Tick k => (AwaitingTick k, st)
  end.

(** The awaited event arrives. *)
Definition resume {A : Type} (net : Network) (t : Task A) (st : State) : Task A * State :=
  match t with
  | Settled o => (Settled o, st)
  | AwaitingReply r k => advance (k (net r)) st
  | AwaitingTick k => advance k st
  end.

(** Resume a task again and again until it settles. *)
Definition finish {A : Type} (net : Network) (t : Task A) (st : State) : Outcome A * State :=
  match t with
  | Settled o => (o, st)
  | AwaitingReply r k => run net (k (net r)) st
  | AwaitingTick k => run net k st
  end.

(** [Promise.all] rejects with the first rejection among its promises. *)
Definition note_rejection {A : Type} (t : Task A) (rejection : option Exn) : option Exn :=
  match rejection, t with
  | None, Settled (Raises e) => Some e
  | _, _ => rejection
  end.

Record Pool (A : Type) : Type := {
  tasks : list (Task A);
  rejection : option Exn;
  pool_state : State
}.
Arguments tasks {A} p.
Arguments rejection {A} p.
Arguments pool_state {A} p.

(** [array.map(async (x) => ...)]: the callbacks are called in array order,
    each running up to its first suspension. *)
Fixpoint start_all {A : Type} (ms : list (Async A)) (rej : option Exn) (st : State)
  : Pool A :=
  match ms with
  | [] => {| tasks := []; rejection := rej; pool_state := st |}
  | m :: ms' =>
      let '(t, st1) := advance m st in
      let p := start_all ms' (note_rejection t rej) st1 in
      {| tasks := t :: tasks p; rejection := rejection p; pool_state := pool_state p |}
  end.

(** The event awaited by task [i] arrives; [provider i] is the network as
    the [i]-th call observes it. *)
Definition deliver {A : Type} (provider : nat -> Network) (p : Pool A) (i : nat) : Pool A :=
  match tasks p !! i with
  | None | Some (Settled _) => p
  | Some t =>
      let '(t', st') := resume (provider i) t (pool_state p) in
      {| tasks := <[i := t']> (tasks p);
         rejection := note_rejection t' (rejection p);
         pool_state := st' |}
  end.

(** Once the given arrivals are used up, the tasks still suspended are
    finished in index order. *)
Fixpoint drain {A : Type} (provider : nat -> Network) (i : nat) (ts : list (Task A))
    (rej : option Exn) (st : State) : list (Outcome A) * option Exn * State :=
  match ts with
  | [] => ([], rej, st)
  | t :: ts' =>
      let '(o, st1) := finish (provider i) t st in
      let '(os, rej', st') := drain provider (S i) ts' (note_rejection (Settled o) rej) st1 in
      (o :: os, rej', st')
  end.

Definition values {A : Type} (os : list (Outcome A)) : list A :=
  omap (fun o => match o with Returns a => Some a | Raises _ => None end) os.

(** [await Promise.all(ms)], the events arriving in the order [arrivals]
    (the index of the task each one resumes).  The result array is indexed
    like [ms].  After a rejection the other calls still run to their end;
    their results are dropped. *)
Definition promise_all {A : Type} (provider : nat -> Network) (arrivals : list nat)
    (ms : list (Async A)) (st : State) : Outcome (list A) * State :=
  let p := fold_left (deliver provider) arrivals (start_all ms None st) in
  let '(os, rej, st') := drain provider 0 (tasks p) (rejection p) (pool_state p) in
  match rej with
  | Some e => (Raises e, st')
  | None => (Returns (values os), st')
  end.

(** ** Trending games *)

Module LiveRecord.
Record t : Type := { id : JsVal; name : JsVal; image : JsVal; liveViewers : Z }.
End LiveRecord.

(** The callback of [games.map]. *)
Definition trendingEntry (game : RawgGame) : Async LiveRecord.t :=
  let! liveViewers := await (fetchLiveViewers (game_name game)) in
  Ret {| LiveRecord.id := game_id game;
         LiveRecord.name := game_name game;
         LiveRecord.image := background_image game;
         LiveRecord.liveViewers := liveViewers |}.

(** [fetchTrendingGames]: [rawg] answers the catalog request, [twitch i] the
    requests of the lookup for the [i]-th game. *)
Definition fetchTrendingGames (rawg : Network) (twitch : nat -> Network)
    (arrivals : list nat) (st : State) : Outcome (list LiveRecord.t) * State :=
  match run rawg (await_axios (GetRawgGames "-added" 5) Ret) st with
  | (Raises e, st1) => (Raises e, st1)
  | (Returns games, st1) => promise_all twitch arrivals (map trendingEntry games) st1
  end.

(** ** Genre trends *)

(** The tally as a map from genre name to count, in the order the names are
    first counted.  This is what the object [genreCounts] below holds as
    long as no genre bears the name of an inherited property; the proofs go
    through it. *)
Fixpoint get_count (genreName : string) (genreCounts : list (string * Z)) : option Z :=
  match genreCounts with
  | [] => None
  | (k, c) :: rest => if String.eqb k genreName then Some c else get_count genreName rest
  end.

Fixpoint set_count (genreName : string) (v : Z) (genreCounts : list (string * Z))
  : list (string * Z) :=
  match genreCounts with
  | [] => [(genreName, v)]
  | (k, c) :: rest =>
      if String.eqb k genreName then (k, v) :: rest
      else (k, c) :: set_count genreName v rest
  end.

(** Counting one genre in the tally. *)
Definition count_genre (genreCounts : list (string * Z)) (genre : Genre) : list (string * Z) :=
  match get_count (genre_name genre) genreCounts with
  | Some c =>
      if truthy (VNum c) then set_count (genre_name genre) (c + 1) genreCounts
      else set_count (genre_name genre) 1 genreCounts
  | None => set_count (genre_name genre) 1 genreCounts
  end.

Definition count_genres (games : list RawgGame) : list (string * Z) :=
  fold_left (fun genreCounts game => fold_left count_genre (genres game) genreCounts)
            games [].

(** [String.prototype.toLowerCase] on ASCII text (see [ascii_text]): the
    letters A to Z are lower-cased. *)
Definition lower_ascii (c : ascii) : ascii :=
  let n := nat_of_ascii c in
  if ((65 <=? n) && (n <=? 90))%nat then ascii_of_nat (n + 32) else c.

Fixpoint toLowerCase (s : string) : string :=
  match s with
  | EmptyString => EmptyString
  | String c s' => String (lower_ascii c) (toLowerCase s')
  end.

(** [s.replace(p, r)] for one-character strings [p] and [r]: only the first
    occurrence is replaced. *)
Fixpoint replace (p r : ascii) (s : string) : string :=
  match s with
  | EmptyString => EmptyString
  | String c s' => if Ascii.eqb c p then String r s' else String c (replace p r s')
  end.

Module GenreStat.
Record t : Type := { id : string; label : string; value : JsVal }.
End GenreStat.

(** The entries of the tally, in its order. *)
Definition formatGenres (genreCounts : list (string * Z)) : list GenreStat.t :=
  map (fun genreName =>
         {| GenreStat.id := replace " " "-" (toLowerCase genreName);
            GenreStat.label := genreName;
            GenreStat.value := match get_count genreName genreCounts with
                               | Some c => VNum c
                               | None => VUndefined
                               end |})
      (map fst genreCounts).

(** [const genreCounts = {}]: a plain object.  Its own properties are kept
    in the order of their creation; what a property holds is a count or,
    after [++] on something that is not a number, NaN. *)
Inductive Count : Type :=
| Counted (n : Z)
| NotANumber.

(** The properties a plain object inherits from [Object.prototype]. *)
Definition inherited_names : list string :=
  [ "constructor"; "hasOwnProperty"; "isPrototypeOf"; "propertyIsEnumerable";
    "toLocaleString"; "toString"; "valueOf"; "__proto__";
    "__defineGetter__"; "__defineSetter__"; "__lookupGetter__"; "__lookupSetter__" ].

Definition inherited (name : string) : bool := existsb (String.eqb name) inherited_names.

Fixpoint own_property (name : string) (object : list (string * Count)) : option Count :=
  match object with
  | [] => None
  | (k, v) :: rest => if String.eqb k name then Some v else own_property name rest
  end.

(** [object[name] = v] for a name other than ["__proto__"]: an own property
    keeps its place, a new one comes last. *)
Fixpoint assign (name : string) (v : Count) (object : list (string * Count))
  : list (string * Count) :=
  match object with
  | [] => [(name, v)]
  | (k, w) :: rest =>
      if String.eqb k name then (k, v) :: rest else (k, w) :: assign name v rest
  end.

(** The body of the inner [forEach]:
    [if (genreCounts[genre.name]) genreCounts[genre.name]++;
     else genreCounts[genre.name] = 1].
    Where the object has no own property of that name, an inherited one is
    read: a function or, for ["__proto__"], an object, both truthy; [++]
    makes NaN of it and assigns that, which creates an own property, except
    that the setter of ["__proto__"] ignores a number. *)
Definition countGenre (genreCounts : list (string * Count)) (genre : Genre)
  : list (string * Count) :=
  let name := genre_name genre in
  match own_property name genreCounts with
  | Some (Counted c) =>
      if truthy (VNum c) then assign name (Counted (c + 1)) genreCounts
      else assign name (Counted 1) genreCounts
  | Some NotANumber => assign name (Counted 1) genreCounts
  | None =>
      if inherited name then
        if String.eqb name "__proto__" then genreCounts
        else assign name NotANumber genreCounts
      else assign name (Counted 1) genreCounts
  end.

(** [genreCounts] after [games.forEach(game => game.genres.forEach(...))]. *)
Definition genreCounts (games : list RawgGame) : list (string * Count) :=
  fold_left (fun genreCounts game => fold_left countGenre (genres game) genreCounts)
            games [].

(** The array index a property name denotes, if any: the name is the decimal
    writing, without superfluous zero, of an integer below 2^32 - 1. *)
Definition array_index (name : string) : option N :=
  match NilZero.uint_of_string name with
  | Some d =>
      let n := N.of_uint d in
      if String.eqb (NilZero.string_of_uint (N.to_uint n)) name && (n <? 4294967295)%N
      then Some n else None
  | None => None
  end.

Fixpoint insert_index (k : N * string) (sorted : list (N * string)) : list (N * string) :=
  match sorted with
  | [] => [k]
  | x :: rest => if (fst k <=? fst x)%N then k :: sorted else x :: insert_index k rest
  end.

(** [Object.keys]: the names that are array indices in ascending order, then
    the other names in the order of their creation. *)
Definition Object_keys (object : list (string * Count)) : list string :=
  map snd (fold_right insert_index []
             (flat_map (fun name => match array_index name with
                                    | Some n => [(n, name)]
                                    | None => []
                                    end)
                       (map fst object)))
  ++ List.filter (fun name => match array_index name with
                              | Some _ => false
                              | None => true
                              end)
                 (map fst object).

(** [Object.keys(genreCounts).map(genreName => ({...}))]. *)
Definition formattedGenres (genreCounts : list (string * Count)) : list GenreStat.t :=
  map (fun genreName =>
         {| GenreStat.id := replace " " "-" (toLowerCase genreName);
            GenreStat.label := genreName;
            GenreStat.value := match own_property genreName genreCounts with
                               | Some (Counted c) => VNum c
                               | Some NotANumber => VNaN
                               | None => VUndefined
                               end |})
      (Object_keys genreCounts).

Definition fetchGenreTrends : Async (list GenreStat.t) :=
  await_axios (GetRawgGames "-added" 50) (fun games =>
  Ret (formattedGenres (genreCounts games))).

(** ** Platform performance *)

Module PlatformStat.
Record t : Type := { id : JsVal; label : JsVal; value : JsVal }.
End PlatformStat.

Definition formatPlatform (platform : RawgPlatform) : PlatformStat.t :=
  {| PlatformStat.id := slug platform;
     PlatformStat.label := platform_name platform;
     PlatformStat.value := games_count platform |}.

Definition fetchPlatformPerformance : Async (list PlatformStat.t) :=
  await_axios (GetRawgPlatforms "-games_count" 8) (fun platforms =>
  Ret (map formatPlatform platforms)).

(** ** Sequential lookups *)

(** [for (const name of names) await fetchLiveViewers(name)], the [k]-th call
    observing the network [provider k]. *)
Fixpoint lookups (provider : nat -> Network) (k : nat) (names : list JsVal) (st : State)
  : list (Outcome Z) * State :=
  match names with
  | [] => ([], st)
  | gameName :: rest =>
      let '(o, st1) := run (provider k) (fetchLiveViewers gameName) st in
      let '(os, st') := lookups provider (S k) rest st1 in
      (o :: os, st')
  end.

(** The number of token exchanges among the requests sent. *)
Definition token_fetches (st : State) : nat :=
  length (List.filter (fun r => match r with PostTwitchToken => true | _ => false end)
                      (requests st)).

(** The requests a call sends when awaited to completion, first to last,
    when it starts with [cache] in [twitchToken]. *)
Fixpoint sent {A : Type} (net : Network) (m : Async A) (cache : JsVal) : list Request :=
  match m with
  | Ret _ | Throw _ => []
  | ReadToken k => sent net (k cache) cache
  | WriteToken v k => sent net k v
  | Call r k => r :: sent net (k (net r)) cache
  | Tick k => sent net k cache
  end.

Definition is_rejected {A : Type} (reply : Reply A) : bool :=
  match reply with
  | Rejected _ => true
  | Fulfilled _ => false
  end.

(** Some request of the lookup for [gameName] is answered by a rejection:
    a network or protocol error at the token exchange, the entity search or
    the session listing. *)
Definition lookup_fails (net : Network) (gameName cache : JsVal) : bool :=
  existsb (fun r => is_rejected (net r)) (sent net (fetchLiveViewers gameName) cache).


(** ** Example data *)

Definition cold : State := {| twitchToken := VNull; requests := [] |}.

Definition streams_of (counts : list Z) : list TwitchStream :=
  map (fun c => {| viewer_count := c |}) counts.

Definition game_with (i : Z) (title : string) (labels : list string) : RawgGame :=
  {| game_id := VNum i; game_name := VStr title; background_image := VNull;
     genres := map (fun l => {| genre_name := l |}) labels |}.

(** A provider in good health: token ["tok"], one entity, the given sessions. *)
Definition healthy (counts : list Z) : Network := fun r =>
  match r with
  | PostTwitchToken => Fulfilled (VStr "tok")
  | GetTwitchGames _ _ => Fulfilled [ {| twitch_id := VStr "516575" |} ]
  | GetTwitchStreams _ _ => Fulfilled (streams_of counts)
  | GetRawgGames _ _ =>
      Fulfilled [ game_with 1 "Alpha" ["Action"; "RPG"]; game_with 2 "Beta" ["Action"] ]
  | GetRawgPlatforms _ _ =>
      Fulfilled [ {| slug := VStr "pc"; platform_name := VStr "PC"; games_count := VNum 500 |};
                  {| slug := VStr "playstation5"; platform_name := VStr "PlayStation 5";
                     games_count := VNum 90 |} ]
  end.

Definition no_response : AxiosError :=
  {| message := "connect ECONNREFUSED"; response := None |}.

Definition server_error : AxiosError :=
  {| message := "Request failed with status code 503"; response := Some (VStr "unavailable") |}.

(** A network on which every request fails with [e]. *)
Definition down (e : AxiosError) : Network := fun r => Rejected e.

(** The lookups of a fan-out: the one for the item at index 1 finds the
    provider unreachable, the others find it in good health. *)
Definition flaky : nat -> Network := fun i =>
  match i with
  | 1%nat => down no_response
  | _ => healthy [120; 80; 300]
  end.

(** [net], except that every entity search is answered by [reply]. *)
Definition with_games (reply : Reply (list TwitchGame)) (net : Network) : Network := fun r =>
  match r as r' return Reply (payload r') with
  | GetTwitchGames _ _ => reply
  | r' => net r'
  end.

(** [net], except that every session listing is answered by [reply]. *)
Definition with_streams (reply : Reply (list TwitchStream)) (net : Network) : Network := fun r =>
  match r as r' return Reply (payload r') with
  | GetTwitchStreams _ _ => reply
  | r' => net r'
  end.


(** A state with a credential in the cache. *)
Definition warm : State := {| twitchToken := VStr "old"; requests := [] |}.

(** [net], except that the token exchange is answered by [reply]. *)
Definition with_token (reply : Reply JsVal) (net : Network) : Network := fun r =>
  match r as r' return Reply (payload r') with
  | PostTwitchToken => reply
  | r' => net r'
  end.

(** The count kept for a label seen [n] times: none before the first. *)
Definition tallied (n : nat) : option Z :=
  match n with
  | O => None
  | S _ => Some (Z.of_nat n)
  end.

(** ** Independence from the schedule

    [settles net known m o]: the call [m], observing [net], settles with
    [o] whatever the other calls in flight write to [twitchToken] while it
    is suspended.  [known] is the content of the cache when the call itself
    has read or written it since it last resumed. *)
Fixpoint settles {A : Type} (net : Network) (known : option JsVal) (m : Async A)
    (o : Outcome A) : Prop :=
  match m with
  | Ret a => o = Returns a
  | Throw e => o = Raises e
  | ReadToken k =>
      match known with
      | Some v => settles net (Some v) (k v) o
      | None => forall v, settles net (Some v) (k v) o
      end
  | WriteToken v k => settles net (Some v) k o
  | Call r k => settles net None (k (net r)) o
  | Tick k => settles net None k o
  end.

Definition task_settles {A : Type} (net : Network) (t : Task A) (o : Outcome A) : Prop :=
  match t with
  | Settled o' => o' = o
  | AwaitingReply r k => settles net None (k (net r)) o
  | AwaitingTick k => settles net None k o
  end.

(** Every task of the pool settles with the outcome at its index. *)
Definition settle_all {A : Type} (provider : nat -> Network) (ts : list (Task A))
    (os : list (Outcome A)) : Prop :=
  length ts = length os /\
  forall (i : nat) (t : Task A) (o : Outcome A),
    ts !! i = Some t -> os !! i = Some o -> task_settles (provider i) t o.

(** [fresh_reads fresh m]: [m] reads [twitchToken] only in a turn in which
    the cache is fresh, that is, in the turn in which [m] was called (when
    [fresh] holds) or after [m] itself wrote the cache in that turn. *)
Fixpoint fresh_reads {A : Type} (fresh : bool) (m : Async A) : Prop :=
  match m with
  | Ret _ | Throw _ => True
  | ReadToken k => fresh = true /\ forall v, fresh_reads true (k v)
  | WriteToken _ k => fresh_reads true k
  | Call r k => forall x, fresh_reads false (k x)
  | Tick k => fresh_reads false k
  end.

(** [m] does not write the cache before its first suspension. *)
Definition quiet_start {A : Type} (m : Async A) : Prop :=
  forall st, twitchToken (snd (advance m st)) = twitchToken st.

(** The record [fetchTrendingGames] builds for [game] from the viewers [n]. *)
Definition record_of (game : RawgGame) (n : Z) : LiveRecord.t :=
  {| LiveRecord.id := game_id game;
     LiveRecord.name := game_name game;
     LiveRecord.image := background_image game;
     LiveRecord.liveViewers := n |}.

(** The viewers a lookup awaited on its own returns. *)
Definition viewers (net : Network) (gameName : JsVal) (st : State) : Z :=
  match fst (run net (fetchLiveViewers gameName) st) with
  | Returns n => n
  | Raises _ => 0
  end.

(** ** Token exchanges of a fan-out *)

(** [m] sends no token exchange, whatever the replies it gets. *)
Fixpoint no_exchange {A : Type} (m : Async A) : Prop :=
  match m with
  | Ret _ | Throw _ => True
  | ReadToken k => forall v, no_exchange (k v)
  | WriteToken _ k => no_exchange k
  | Call r k => r <> PostTwitchToken /\ forall x, no_exchange (k x)
  | Tick k => no_exchange k
  end.

Definition task_no_exchange {A : Type} (t : Task A) : Prop :=
  match t with
  | Settled _ => True
  | AwaitingReply _ k => forall x, no_exchange (k x)
  | AwaitingTick k => no_exchange k
  end.

(** [m], observing [net], writes nothing but non-empty tokens to the cache. *)
Fixpoint keeps_warm {A : Type} (net : Network) (m : Async A) : Prop :=
  match m with
  | Ret _ | Throw _ => True
  | ReadToken k => forall v, keeps_warm net (k v)
  | WriteToken v k => truthy v = true /\ keeps_warm net k
  | Call r k => keeps_warm net (k (net r))
  | Tick k => keeps_warm net k
  end.

Definition task_keeps_warm {A : Type} (net : Network) (t : Task A) : Prop :=
  match t with
  | Settled _ => True
  | AwaitingReply r k => keeps_warm net (k (net r))
  | AwaitingTick k => keeps_warm net k
  end.

(** The reply [t] awaits will put a non-empty token in the cache. *)
Definition task_warms {A : Type} (net : Network) (t : Task A) : Prop :=
  match t with
  | AwaitingReply r k =>
      forall st, truthy (twitchToken (snd (advance (k (net r)) st))) = true
  | _ => False
  end.

(** The games of the catalog that have a name. *)
Definition named (games : list RawgGame) : list RawgGame :=
  List.filter (fun game => truthy (game_name game)) games.

(** The token a Twitch search is authorised with:
    [Authorization: Bearer ${token}]. *)
Definition bearer (r : Request) : option JsVal :=
  match r with
  | GetTwitchGames _ token | GetTwitchStreams _ token => Some token
  | _ => None
  end.

(** ** Genre names *)

Definition is_upper (c : ascii) : bool :=
  ((65 <=? nat_of_ascii c) && (nat_of_ascii c <=? 90))%nat.

(** A genre name the way RAWG writes them, beginning with a capital letter
    ("Action", "RPG", "Board Games").  Such a name is neither an array index
    nor the name of a property objects inherit. *)
Definition genre_like (l : string) : bool :=
  match l with
  | EmptyString => false
  | String c _ => is_upper c
  end.

(** A name written in ASCII. *)
Definition ascii_text (l : string) : bool :=
  forallb (fun c => (nat_of_ascii c <? 128)%nat) (list_ascii_of_string l).



(** The object whose own properties are the counts of a tally. *)
Definition object_of (tally : list (string * Z)) : list (string * Count) :=
  map (fun kv => (fst kv, Counted (snd kv))) tally.

(** [l] is among the keys [ks]. *)
Definition mem (l : string) (ks : list string) : bool := existsb (String.eqb l) ks.

(** The labels of a list in the order of their first occurrence. *)
Fixpoint first_seen (labels : list string) : list string :=
  match labels with
  | [] => []
  | l :: rest => l :: List.filter (fun l' => negb (String.eqb l' l)) (first_seen rest)
  end.

(** The number held by a count. *)
Definition number_of (v : JsVal) : Z :=
  match v with
  | VNum n => n
  | _ => 0
  end.

(** ** The dashboard ([client/src/app.jsx])

    The data the three endpoints serve have the shapes the service returns:
    [LiveRecord.t], [GenreStat.t], [PlatformStat.t]. *)

(** [String(n)] for an integer [n]. *)
Definition decimal (n : Z) : string := NilZero.string_of_int (Z.to_int n).

(** [formatViewers].  [(num / 1000).toFixed(0)] prints the integer nearest to
    the quotient, the larger of the two at a tie; for an integer [num] up to
    2^53 - 1 the quotient is computed closely enough for that integer to be
    [(num + 500) / 1000] rounded down. *)
Definition formatViewers (num : Z) : JsVal :=
  if 999 <? num then VStr (decimal ((num + 500) / 1000) ++ "k")
  else VNum num.

(** The state variables of [App]: [null] until set. *)
Module Dashboard.
Record State : Type := {
  trendingData : option (list LiveRecord.t);
  genreData : option (list GenreStat.t);
  platformData : option (list PlatformStat.t);
  error : JsVal
}.
End Dashboard.

Definition initial : Dashboard.State :=
  {| Dashboard.trendingData := None; Dashboard.genreData := None;
     Dashboard.platformData := None; Dashboard.error := VNull |}.

Definition quote : string := String (ascii_of_nat 34) EmptyString.

(** The message of [setError]. *)
Definition load_failed : string :=
  ("Network Error: Failed to load data. Is your backend server running on port 3001? (You must run "
   ++ quote ++ "node index.js" ++ quote ++ " in the /server folder)")%string.

(** [fetchAllData], given how the three requests of its [Promise.all]
    settle: the three setters are called when all are fulfilled, [setError]
    when one is rejected. *)
Definition fetchAllData (trendingRes : Reply (list LiveRecord.t))
    (genreRes : Reply (list GenreStat.t)) (platformRes : Reply (list PlatformStat.t))
    (st : Dashboard.State) : Dashboard.State :=
  match trendingRes, genreRes, platformRes with
  | Fulfilled trending, Fulfilled genre, Fulfilled platform =>
      {| Dashboard.trendingData := Some trending;
         Dashboard.genreData := Some genre;
         Dashboard.platformData := Some platform;
         Dashboard.error := Dashboard.error st |}
  | _, _, _ =>
      {| Dashboard.trendingData := Dashboard.trendingData st;
         Dashboard.genreData := Dashboard.genreData st;
         Dashboard.platformData := Dashboard.platformData st;
         Dashboard.error := VStr load_failed |}
  end.

(** [a || b]. *)
Definition js_or (a b : JsVal) : JsVal := if truthy a then a else b.

(** A list item of [TrendingGamesCard]: the [key], the [src] and [alt] of
    the image, the name and the viewers shown. *)
Record GameRow : Type := {
  row_key : option string;
  img_src : JsVal;
  img_alt : JsVal;
  row_name : JsVal;
  row_viewers : JsVal
}.

Definition placeholder : JsVal := VStr "https://placehold.co/60x80/60a5fa/FFF?text=?".

(** The key React keeps for [key={v}]: none when [v] is [undefined], the
    string ['' + v] otherwise (an integer below 10^21 is written in
    decimal). *)
Definition key_of (v : JsVal) : option string :=
  match v with
  | VUndefined => None
  | VNull => Some "null"
  | VBool true => Some "true"
  | VBool false => Some "false"
  | VNum n => Some (decimal n)
  | VStr s => Some s
  | VNaN => Some "NaN"
  end.

Definition TrendingGamesCard (data : list LiveRecord.t) : list GameRow :=
  map (fun game =>
         {| row_key := key_of (LiveRecord.id game);
            img_src := js_or (LiveRecord.image game) placeholder;
            img_alt := LiveRecord.name game;
            row_name := LiveRecord.name game;
            row_viewers := formatViewers (LiveRecord.liveViewers game) |})
      data.

(** The [chartData] of a chart: [labels] and the [data] of its one dataset. *)
Record ChartData (L : Type) : Type := {
  chart_labels : list L;
  chart_data : list JsVal
}.
Arguments chart_labels {L} c.
Arguments chart_data {L} c.

Definition GenreStatsCard (data : list GenreStat.t) : ChartData string :=
  {| chart_labels := map (fun g => GenreStat.label g) data;
     chart_data := map (fun g => GenreStat.value g) data |}.

Definition PlatformChartCard (data : list PlatformStat.t) : ChartData JsVal :=
  {| chart_labels := map (fun p => PlatformStat.label p) data;
     chart_data := map (fun p => PlatformStat.value p) data |}.

(** What [App] returns: the error message, the loading screen, or the three
    cards.  (Class names and chart options are constants.) *)
Inductive View : Type :=
| ErrorView (message : JsVal)
| LoadingView
| DashboardView (trending : list GameRow) (genre : ChartData string)
                (platform : ChartData JsVal).

(** [App], as a function of its state variables.  An array is truthy, also
    when empty. *)
Definition App (st : Dashboard.State) : View :=
  if truthy (Dashboard.error st) then ErrorView (Dashboard.error st)
  else
    match Dashboard.trendingData st, Dashboard.genreData st, Dashboard.platformData st with
    | Some trendingData, Some genreData, Some platformData =>
        DashboardView (TrendingGamesCard trendingData) (GenreStatsCard genreData)
                      (PlatformChartCard platformData)
    | _, _, _ => LoadingView
    end.

(** * Properties *)

(** ** The two interpreters and the combinators *)

Lemma run_bind {A B : Type} (net : Network) (m : Async A) (f : A -> Async B) (st : State) :
  run net (bind m f) st =
  match run net m st with
  | (Returns a, st1) => run net (f a) st1
  | (Raises e, st1) => (Raises e, st1)
  end.
Proof.
  revert st. induction m as [a|e|k IH|v k IH|r k IH|k IH]; intros st; simpl; auto.
Qed.

Lemma run_try_catch {A : Type} (net : Network) (m : Async A) (h : Exn -> Async A) (st : State) :
  run net (try_catch m h) st =
  match run net m st with
  | (Returns a, st1) => (Returns a, st1)
  | (Raises e, st1) => run net (h e) st1
  end.
Proof.
  revert st. induction m as [a|e|k IH|v k IH|r k IH|k IH]; intros st; simpl; auto.
Qed.

Lemma run_await {A : Type} (net : Network) (m : Async A) (st : State) :
  run net (await m) st = run net m st.
Proof.
  revert st. induction m as [a|e|k IH|v k IH|r k IH|k IH]; intros st; simpl; auto.
Qed.

Lemma run_requests {A : Type} (net : Network) (m : Async A) (st : State) :
  requests (snd (run net m st)) = rev (sent net m (twitchToken st)) ++ requests st.
Proof.
  revert st. induction m as [a|e|k IH|v k IH|r k IH|k IH]; intros st; simpl.
  - reflexivity.
  - reflexivity.
  - apply IH.
  - rewrite IH. reflexivity.
  - rewrite IH. simpl. rewrite <- app_assoc. reflexivity.
  - apply IH.
Qed.

(** ** The token cache *)

(** What [getTwitchAccessToken] does, case by case. *)
Lemma run_getTwitchAccessToken (net : Network) (st : State) :
  run net getTwitchAccessToken st =
  if truthy (twitchToken st) then (Returns (twitchToken st), st)
  else
    match net PostTwitchToken with
    | Fulfilled access_token =>
        (Returns access_token, set_token access_token (issue PostTwitchToken st))
    | Rejected e =>
        (Raises (match response e with
                 | None => TypeError "Cannot read properties of undefined (reading 'data')"
                 | Some _ => Error "Could not get Twitch token"
                 end),
         issue PostTwitchToken st)
    end.
Proof.
  unfold getTwitchAccessToken. simpl.
  destruct (truthy (twitchToken st)); [reflexivity|].
  simpl. destruct (net PostTwitchToken) as [tok|e]; simpl; [reflexivity|].
  destruct (response e); reflexivity.
Qed.

(** A failed exchange leaves the cache as it was and throws. *)
Lemma getTwitchAccessToken_failure (net : Network) (st : State) (e : AxiosError) :
  truthy (twitchToken st) = false ->
  net PostTwitchToken = Rejected e ->
  exists error st',
    run net getTwitchAccessToken st = (Raises error, st') /\
    twitchToken st' = twitchToken st.
Proof.
  intros Hc He. rewrite run_getTwitchAccessToken, Hc, He.
  eexists _, _. split; reflexivity.
Qed.

(** ** The viewer lookup *)

Lemma sum_viewers_from (streams : list TwitchStream) (acc : Z) :
  fold_left (fun totalViewers stream => totalViewers + viewer_count stream) streams acc =
  acc + fold_right Z.add 0 (map viewer_count streams).
Proof.
  revert acc. induction streams as [|s streams IH]; intros acc; simpl.
  - lia.
  - rewrite IH. lia.
Qed.

Lemma sum_viewers_total (streams : list TwitchStream) :
  sum_viewers streams = fold_right Z.add 0 (map viewer_count streams).
Proof. unfold sum_viewers. rewrite sum_viewers_from. lia. Qed.


(** What [fetchLiveViewers] does, case by case. *)
Lemma run_fetchLiveViewers (net : Network) (gameName : JsVal) (st : State) :
  run net (fetchLiveViewers gameName) st =
  if truthy gameName then
    match run net getTwitchAccessToken st with
    | (Raises _, st1) => (Returns 0, st1)
    | (Returns token, st1) =>
        let st2 := issue (GetTwitchGames gameName token) st1 in
        match net (GetTwitchGames gameName token) with
        | Rejected _ => (Returns 0, st2)
        | Fulfilled [] => (Returns 0, st2)
        | Fulfilled (first :: _) =>
            let st3 := issue (GetTwitchStreams (twitch_id first) token) st2 in
            match net (GetTwitchStreams (twitch_id first) token) with
            | Rejected _ => (Returns 0, st3)
            | Fulfilled streams => (Returns (sum_viewers streams), st3)
            end
        end
    end
  else (Returns 0, st).
Proof.
  unfold fetchLiveViewers. destruct (truthy gameName); cbn [negb]; [|reflexivity].
  rewrite run_try_catch, run_bind, run_await.
  destruct (run net getTwitchAccessToken st) as [[token|e] st1]; simpl; [|reflexivity].
  destruct (net (GetTwitchGames gameName token)) as [[|first others]|e]; simpl;
    try reflexivity.
  destruct (net (GetTwitchStreams (twitch_id first) token)) as [streams|e]; reflexivity.
Qed.

(** [fetchLiveViewers] settles with a number, whatever the network does. *)
Lemma fetchLiveViewers_returns (net : Network) (gameName : JsVal) (st : State) :
  exists n st', run net (fetchLiveViewers gameName) st = (Returns n, st').
Proof.
  rewrite run_fetchLiveViewers.
  destruct (truthy gameName); [|eauto].
  destruct (run net getTwitchAccessToken st) as [[token|e] st1]; [|eauto].
  cbv zeta.
  destruct (net (GetTwitchGames gameName token)) as [[|first others]|e]; eauto.
  destruct (net (GetTwitchStreams (twitch_id first) token)) as [streams|e]; eauto.
Qed.

(** A rejected request makes the lookup return 0. *)
Lemma lookup_fails_zero (net : Network) (gameName : JsVal) (st : State) :
  lookup_fails net gameName (twitchToken st) = true ->
  fst (run net (fetchLiveViewers gameName) st) = Returns 0.
Proof.
  unfold lookup_fails. rewrite run_fetchLiveViewers, run_getTwitchAccessToken.
  unfold fetchLiveViewers, getTwitchAccessToken.
  destruct (truthy gameName); simpl; [|discriminate].
  destruct (truthy (twitchToken st)); simpl.
  - destruct (net (GetTwitchGames gameName (twitchToken st))) as [[|first others]|e];
      simpl; try reflexivity; try discriminate.
    destruct (net (GetTwitchStreams (twitch_id first) (twitchToken st))) as [streams|e];
      simpl; try reflexivity; discriminate.
  - destruct (net PostTwitchToken) as [token|e]; simpl.
    + destruct (net (GetTwitchGames gameName token)) as [[|first others]|e];
        simpl; try reflexivity; try discriminate.
      destruct (net (GetTwitchStreams (twitch_id first) token)) as [streams|e];
        simpl; try reflexivity; discriminate.
    + destruct (response e); reflexivity.
Qed.





(** C2: an empty or absent name gives 0 at once, with no request sent; with
    a name and a token, an entity search without match gives 0; otherwise
    the sessions of the first match's identifier are requested and the sum
    of their viewer counts is returned, the counts being small enough for
    the additions to be exact. *)
Theorem fetchLiveViewers_algorithm (net : Network) (gameName : JsVal) (st : State) :
  (truthy gameName = false ->
   run net (fetchLiveViewers gameName) st = (Returns 0, st)) /\
  (truthy gameName = true ->
   forall token st1,
     run net getTwitchAccessToken st = (Returns token, st1) ->
     (net (GetTwitchGames gameName token) = Fulfilled [] ->
      run net (fetchLiveViewers gameName) st =
      (Returns 0, issue (GetTwitchGames gameName token) st1)) /\
     (forall first others streams,
        net (GetTwitchGames gameName token) = Fulfilled (first :: others) ->
        net (GetTwitchStreams (twitch_id first) token) = Fulfilled streams ->
        exact_counts streams ->
        run net (fetchLiveViewers gameName) st =
        (Returns (fold_right Z.add 0 (map viewer_count streams)),
         issue (GetTwitchStreams (twitch_id first) token)
               (issue (GetTwitchGames gameName token) st1)))).
Proof.
  rewrite run_fetchLiveViewers. split; intros Hname; rewrite Hname; [reflexivity|].
  intros token st1 ->. cbv zeta. split.
  - intros ->. reflexivity.
  - intros first others streams -> -> _. rewrite sum_viewers_total. reflexivity.
Qed.

Lemma exact_counts_of (counts : list Z) :
  fold_right Z.add 0 (map Z.abs counts) <= max_safe_integer ->
  exact_counts (streams_of counts).
Proof.
  unfold exact_counts, streams_of. rewrite map_map. simpl. auto.
Qed.

Lemma fetchLiveViewers_algorithm_witness :
  run (healthy [120; 80; 300]) (fetchLiveViewers (VStr "Valorant")) cold =
  (Returns 500,
   {| twitchToken := VStr "tok";
      requests := [GetTwitchStreams (VStr "516575") (VStr "tok");
                   GetTwitchGames (VStr "Valorant") (VStr "tok");
                   PostTwitchToken] |}) /\
  run (healthy []) (fetchLiveViewers (VStr "Valorant")) cold =
  (Returns 0,
   {| twitchToken := VStr "tok";
      requests := [GetTwitchStreams (VStr "516575") (VStr "tok");
                   GetTwitchGames (VStr "Valorant") (VStr "tok");
                   PostTwitchToken] |}) /\
  run (healthy []) (fetchLiveViewers (VStr "")) cold = (Returns 0, cold).
Proof.
  split; [|split].
  - destruct (fetchLiveViewers_algorithm (healthy [120; 80; 300]) (VStr "Valorant") cold)
      as [_ H].
    destruct (H eq_refl (VStr "tok") _ eq_refl) as [_ Hsum].
    apply (Hsum _ _ (streams_of [120; 80; 300]) eq_refl eq_refl).
    apply exact_counts_of. unfold max_safe_integer. simpl. lia.
  - destruct (fetchLiveViewers_algorithm (healthy []) (VStr "Valorant") cold) as [_ H].
    destruct (H eq_refl (VStr "tok") _ eq_refl) as [_ Hsum].
    apply (Hsum _ _ (streams_of []) eq_refl eq_refl).
    apply exact_counts_of. unfold max_safe_integer. simpl. lia.
  - destruct (fetchLiveViewers_algorithm (healthy []) (VStr "") cold) as [H _].
    exact (H eq_refl).
Defined.

(** ** Token exchanges across calls *)

Lemma token_fetches_issue (r : Request) (st : State) :
  token_fetches (issue r st) =
  match r with
  | PostTwitchToken => S (token_fetches st)
  | _ => token_fetches st
  end.
Proof. unfold token_fetches. destruct r; reflexivity. Qed.

Lemma token_fetches_set_token (v : JsVal) (st : State) :
  token_fetches (set_token v st) = token_fetches st.
Proof. reflexivity. Qed.

(** A lookup sends nothing but the two searches after its token step. *)
Lemma lookup_after_token (net : Network) (gameName : JsVal) (st : State) :
  truthy gameName = true ->
  let st1 := snd (run net getTwitchAccessToken st) in
  let st' := snd (run net (fetchLiveViewers gameName) st) in
  token_fetches st' = token_fetches st1 /\ twitchToken st' = twitchToken st1.
Proof.
  intros Hname. cbv zeta. rewrite run_fetchLiveViewers, Hname.
  destruct (run net getTwitchAccessToken st) as [[token|e] st1]; simpl; [|auto].
  destruct (net (GetTwitchGames gameName token)) as [[|first others]|e]; simpl; auto.
  destruct (net (GetTwitchStreams (twitch_id first) token)) as [streams|e]; simpl; auto.
Qed.

(** With a credential in the cache a lookup exchanges no token and leaves
    the cache alone. *)
Lemma lookup_warm (net : Network) (gameName : JsVal) (st : State) :
  truthy (twitchToken st) = true ->
  let st' := snd (run net (fetchLiveViewers gameName) st) in
  token_fetches st' = token_fetches st /\ twitchToken st' = twitchToken st.
Proof.
  intros Hwarm. cbv zeta. destruct (truthy gameName) eqn:Hname.
  - destruct (lookup_after_token net gameName st Hname) as [-> ->].
    rewrite run_getTwitchAccessToken, Hwarm. auto.
  - rewrite run_fetchLiveViewers, Hname. auto.
Qed.

Lemma lookups_warm (provider : nat -> Network) (k : nat) (names : list JsVal) (st : State) :
  truthy (twitchToken st) = true ->
  let st' := snd (lookups provider k names st) in
  token_fetches st' = token_fetches st /\ twitchToken st' = twitchToken st.
Proof.
  revert k st. induction names as [|gameName rest IH]; intros k st Hwarm; simpl; [auto|].
  destruct (lookup_warm (provider k) gameName st Hwarm) as [Hn Ht].
  destruct (run (provider k) (fetchLiveViewers gameName) st) as [o st1]. simpl in Hn, Ht.
  assert (Hwarm1 : truthy (twitchToken st1) = true) by (rewrite Ht; exact Hwarm).
  specialize (IH (S k) st1 Hwarm1).
  destruct (lookups provider (S k) rest st1) as [os st']. simpl in *.
  destruct IH as [-> ->]. auto.
Qed.

(** A lookup on a cold cache whose exchange succeeds with a non-empty token
    leaves the cache warm, at the price of one exchange. *)
Lemma lookup_cold_success (net : Network) (gameName : JsVal) (st : State) (token : JsVal) :
  truthy (twitchToken st) = false ->
  net PostTwitchToken = Fulfilled token ->
  truthy token = true ->
  let st' := snd (run net (fetchLiveViewers gameName) st) in
  (token_fetches st' = token_fetches st /\ twitchToken st' = twitchToken st) \/
  (token_fetches st' = S (token_fetches st) /\ truthy (twitchToken st') = true).
Proof.
  intros Hcold Hnet Htok. cbv zeta. destruct (truthy gameName) eqn:Hname.
  - right. destruct (lookup_after_token net gameName st Hname) as [-> ->].
    rewrite run_getTwitchAccessToken, Hcold, Hnet. simpl. auto.
  - left. rewrite run_fetchLiveViewers, Hname. auto.
Qed.

Lemma lookups_at_most_once (provider : nat -> Network) (k : nat) (names : list JsVal)
    (st : State) :
  (forall j, exists token,
      provider j PostTwitchToken = Fulfilled token /\ truthy token = true) ->
  (token_fetches (snd (lookups provider k names st)) <= S (token_fetches st))%nat.
Proof.
  intros Hok. revert k st. induction names as [|gameName rest IH]; intros k st; simpl.
  - lia.
  - destruct (truthy (twitchToken st)) eqn:Hc.
    + pose proof (lookups_warm provider k (gameName :: rest) st Hc) as [H _].
      simpl in H. rewrite H. lia.
    + destruct (Hok k) as (token & Hnet & Htok).
      pose proof (lookup_cold_success (provider k) gameName st token Hc Hnet Htok) as H.
      destruct (run (provider k) (fetchLiveViewers gameName) st) as [o st1].
      simpl in H. destruct H as [[Hn _]|[Hn Hwarm]].
      * specialize (IH (S k) st1).
        destruct (lookups provider (S k) rest st1) as [os st']. simpl in *. lia.
      * pose proof (lookups_warm provider (S k) rest st1 Hwarm) as [H _].
        destruct (lookups provider (S k) rest st1) as [os st']. simpl in *. lia.
Qed.

(** C4, as amended: a cached credential is returned at once, with no request
    sent; in consequence, over any sequence of lookups awaited one after the
    other, a warm cache means no token exchange at all, whatever the
    provider does, and the token is exchanged at most once provided the
    exchanges succeed with a non-empty token. *)
Theorem token_fetched_at_most_once (provider : nat -> Network) (k : nat)
    (names : list JsVal) (st : State) :
  (forall net st1, truthy (twitchToken st1) = true ->
     run net getTwitchAccessToken st1 = (Returns (twitchToken st1), st1)) /\
  (truthy (twitchToken st) = true ->
   token_fetches (snd (lookups provider k names st)) = token_fetches st) /\
  ((forall j, exists token,
      provider j PostTwitchToken = Fulfilled token /\ truthy token = true) ->
   (token_fetches (snd (lookups provider k names st)) <= S (token_fetches st))%nat).
Proof.
  split; [|split].
  - intros net st1 Hwarm. rewrite run_getTwitchAccessToken, Hwarm. reflexivity.
  - intros Hwarm. apply (lookups_warm provider k names st Hwarm).
  - intros Hok. apply lookups_at_most_once. exact Hok.
Qed.

(** A warm cache with the token endpoint down, and a cold cache with the
    provider in good health. *)
Lemma token_fetched_at_most_once_witness :
  run (down no_response) getTwitchAccessToken warm = (Returns (VStr "old"), warm) /\
  token_fetches (snd (lookups (fun _ => down no_response) 0
                              [VStr "Valorant"; VStr "Dota 2"; VStr "Apex"] warm)) =
  token_fetches warm /\
  Nat.le (token_fetches (snd (lookups (fun _ => healthy [120; 80; 300]) 0
                                      [VStr "Valorant"; VStr "Dota 2"; VStr "Apex"] cold)))
         (S (token_fetches cold)).
Proof.
  split; [|split].
  - destruct (token_fetched_at_most_once (fun _ => down no_response) 0 [] warm)
      as (Hhit & _ & _).
    exact (Hhit (down no_response) warm eq_refl).
  - destruct (token_fetched_at_most_once (fun _ => down no_response) 0
                [VStr "Valorant"; VStr "Dota 2"; VStr "Apex"] warm) as (_ & Hwarm & _).
    exact (Hwarm eq_refl).
  - destruct (token_fetched_at_most_once (fun _ => healthy [120; 80; 300]) 0
                [VStr "Valorant"; VStr "Dota 2"; VStr "Apex"] cold) as (_ & _ & Honce).
    apply Honce. intros j. exists (VStr "tok"). split; reflexivity.
Defined.

(** C4 as stated fails: when the token endpoint cannot be reached, two
    lookups awaited one after the other exchange the token twice. *)
Lemma token_fetched_twice :
  token_fetches (snd (lookups (fun _ => down no_response) 0
                              [VStr "Valorant"; VStr "Dota 2"] cold)) = 2%nat /\
  ~ (2 <= 1)%nat.
Proof. split; [reflexivity | lia]. Qed.

(** C8 fails on the code when the exchange fails without an HTTP response
    (here a refused connection): the [catch] block of
    [getTwitchAccessToken] evaluates [error.response.data] for its log line
    and that raises a [TypeError]; [throw new Error('Could not get Twitch
    token')] is not reached.  The cache stays empty.  With a response (a
    503) the intended error is thrown. *)
Theorem getTwitchAccessToken_network_failure :
  run (down no_response) getTwitchAccessToken cold =
  (Raises (TypeError "Cannot read properties of undefined (reading 'data')"),
   {| twitchToken := VNull; requests := [PostTwitchToken] |}) /\
  run (down server_error) getTwitchAccessToken cold =
  (Raises (Error "Could not get Twitch token"),
   {| twitchToken := VNull; requests := [PostTwitchToken] |}).
Proof. split; reflexivity. Qed.

(** C10: when the exchange succeeds with an absent or empty [access_token],
    [getTwitchAccessToken] returns that value and the cache holds it, still
    falsy, so the next call exchanges the token again; lookups whose
    exchanges all answer that way exchange the token once each. *)
Theorem empty_token_not_cached (net : Network) (st : State) (access_token : JsVal) :
  truthy (twitchToken st) = false ->
  net PostTwitchToken = Fulfilled access_token ->
  truthy access_token = false ->
  let st1 := set_token access_token (issue PostTwitchToken st) in
  run net getTwitchAccessToken st = (Returns access_token, st1) /\
  truthy (twitchToken st1) = false /\
  (forall net', token_fetches (snd (run net' getTwitchAccessToken st1)) =
                S (token_fetches st1)) /\
  (forall names,
     Forall (fun gameName => truthy gameName = true) names ->
     token_fetches (snd (lookups (fun _ => net) 0 names st)) =
     (token_fetches st + length names)%nat).
Proof.
  intros Hcold Hnet Hfalsy. cbv zeta. split; [|split; [|split]].
  - rewrite run_getTwitchAccessToken, Hcold, Hnet. reflexivity.
  - exact Hfalsy.
  - intros net'. rewrite run_getTwitchAccessToken. simpl. rewrite Hfalsy.
    destruct (net' PostTwitchToken); reflexivity.
  - intros names Hnames. generalize 0%nat as k. revert st Hcold.
    induction Hnames as [|gameName rest Hname _ IH]; intros st Hcold k; simpl; [lia|].
    destruct (lookup_after_token net gameName st Hname) as [Hn Ht].
    rewrite run_getTwitchAccessToken, Hcold, Hnet in Hn, Ht. simpl in Hn, Ht.
    destruct (run net (fetchLiveViewers gameName) st) as [o st1]. simpl in Hn, Ht.
    assert (Hcold1 : truthy (twitchToken st1) = false) by (rewrite Ht; exact Hfalsy).
    specialize (IH st1 Hcold1 (S k)).
    destruct (lookups (fun _ => net) (S k) rest st1) as [os st']. simpl in *.
    rewrite IH, Hn, token_fetches_set_token, token_fetches_issue. lia.
Qed.

Lemma empty_token_not_cached_witness :
  let net := with_token (Fulfilled (VStr "")) (healthy [120; 80; 300]) in
  let st1 := set_token (VStr "") (issue PostTwitchToken cold) in
  run net getTwitchAccessToken cold = (Returns (VStr ""), st1) /\
  truthy (twitchToken st1) = false /\
  (forall net', token_fetches (snd (run net' getTwitchAccessToken st1)) =
                S (token_fetches st1)) /\
  (forall names,
     Forall (fun gameName => truthy gameName = true) names ->
     token_fetches (snd (lookups (fun _ => net) 0 names cold)) =
     (token_fetches cold + length names)%nat).
Proof.
  exact (empty_token_not_cached (with_token (Fulfilled (VStr "")) (healthy [120; 80; 300]))
           cold (VStr "") eq_refl eq_refl eq_refl).
Defined.

(** ** Platform performance *)

Lemma lookup_map {A B : Type} (f : A -> B) (l : list A) (i : nat) :
  map f l !! i = option_map f (l !! i).
Proof.
  revert i. induction l as [|x l IH]; intros [|i]; simpl; auto.
Qed.

(** C9: each platform of the provider's response becomes one entry, with
    [id] the provider's slug, [label] its name and [value] its game count,
    at the position the platform has in the response. *)
Theorem fetchPlatformPerformance_maps (rawg : Network) (st : State)
    (platforms : list RawgPlatform) :
  rawg (GetRawgPlatforms "-games_count" 8) = Fulfilled platforms ->
  exists out,
    run rawg fetchPlatformPerformance st =
    (Returns out, issue (GetRawgPlatforms "-games_count" 8) st) /\
    length out = length platforms /\
    forall (i : nat) (platform : RawgPlatform),
      platforms !! i = Some platform <->
      exists stat,
        out !! i = Some stat /\
        stat = {| PlatformStat.id := slug platform;
                  PlatformStat.label := platform_name platform;
                  PlatformStat.value := games_count platform |}.
Proof.
  intros Hnet. exists (map formatPlatform platforms). split; [|split].
  - unfold fetchPlatformPerformance, await_axios. simpl. rewrite Hnet. reflexivity.
  - apply length_map.
  - intros i platform. rewrite lookup_map. split.
    + intros ->. exists (formatPlatform platform). split; reflexivity.
    + intros (stat & Hi & ->). destruct (platforms !! i) as [p|]; [|discriminate].
      simpl in Hi. destruct p, platform. injection Hi as -> -> ->. reflexivity.
Qed.

Lemma fetchPlatformPerformance_maps_witness :
  exists out,
    run (healthy []) fetchPlatformPerformance cold =
    (Returns out, issue (GetRawgPlatforms "-games_count" 8) cold) /\
    length out = 2%nat /\
    forall (i : nat) (platform : RawgPlatform),
      [ {| slug := VStr "pc"; platform_name := VStr "PC"; games_count := VNum 500 |};
        {| slug := VStr "playstation5"; platform_name := VStr "PlayStation 5";
           games_count := VNum 90 |} ] !! i = Some platform <->
      exists stat,
        out !! i = Some stat /\
        stat = {| PlatformStat.id := slug platform;
                  PlatformStat.label := platform_name platform;
                  PlatformStat.value := games_count platform |}.
Proof.
  exact (fetchPlatformPerformance_maps (healthy []) cold _ eq_refl).
Defined.

(** ** Catalog failures *)

(** C5: when the catalog request is rejected, each of [fetchTrendingGames],
    [fetchGenreTrends] and [fetchPlatformPerformance] raises that very error
    to its caller; a lookup, by contrast, raises nothing. *)
Theorem catalog_failure_propagates (rawg : Network) (twitch : nat -> Network)
    (arrivals : list nat) (st : State) (e : AxiosError) :
  (rawg (GetRawgGames "-added" 5) = Rejected e ->
   fetchTrendingGames rawg twitch arrivals st =
   (Raises (AxiosErr e), issue (GetRawgGames "-added" 5) st)) /\
  (rawg (GetRawgGames "-added" 50) = Rejected e ->
   run rawg fetchGenreTrends st =
   (Raises (AxiosErr e), issue (GetRawgGames "-added" 50) st)) /\
  (rawg (GetRawgPlatforms "-games_count" 8) = Rejected e ->
   run rawg fetchPlatformPerformance st =
   (Raises (AxiosErr e), issue (GetRawgPlatforms "-games_count" 8) st)) /\
  (forall gameName, exists n st',
     run rawg (fetchLiveViewers gameName) st = (Returns n, st')).
Proof.
  split; [|split; [|split]].
  - intros H. unfold fetchTrendingGames, await_axios. simpl. rewrite H. reflexivity.
  - intros H. unfold fetchGenreTrends, await_axios. simpl. rewrite H. reflexivity.
  - intros H. unfold fetchPlatformPerformance, await_axios. simpl. rewrite H. reflexivity.
  - intros gameName. apply fetchLiveViewers_returns.
Qed.

Lemma catalog_failure_propagates_witness :
  fetchTrendingGames (down server_error) (fun _ => healthy [120]) [1; 0]%nat cold =
  (Raises (AxiosErr server_error), issue (GetRawgGames "-added" 5) cold) /\
  run (down server_error) fetchGenreTrends cold =
  (Raises (AxiosErr server_error), issue (GetRawgGames "-added" 50) cold) /\
  run (down server_error) fetchPlatformPerformance cold =
  (Raises (AxiosErr server_error), issue (GetRawgPlatforms "-games_count" 8) cold).
Proof.
  destruct (catalog_failure_propagates (down server_error) (fun _ => healthy [120])
              [1; 0]%nat cold server_error) as (H1 & H2 & H3 & _).
  exact (conj (H1 eq_refl) (conj (H2 eq_refl) (H3 eq_refl))).
Defined.

(** ** Genre trends *)

Lemma get_count_set_same (l : string) (v : Z) (c : list (string * Z)) :
  get_count l (set_count l v c) = Some v.
Proof.
  induction c as [|[k x] c IH]; simpl.
  - rewrite String.eqb_refl. reflexivity.
  - destruct (String.eqb k l) eqn:E; simpl; rewrite E; auto.
Qed.

Lemma get_count_set_other (l l' : string) (v : Z) (c : list (string * Z)) :
  l <> l' -> get_count l' (set_count l v c) = get_count l' c.
Proof.
  intros Hne. induction c as [|[k x] c IH]; simpl.
  - apply String.eqb_neq in Hne. rewrite Hne. reflexivity.
  - destruct (String.eqb k l) eqn:E; simpl.
    + apply String.eqb_eq in E. subst k.
      apply String.eqb_neq in Hne. rewrite Hne. reflexivity.
    + rewrite IH. reflexivity.
Qed.

Lemma keys_set_count (l : string) (v : Z) (c : list (string * Z)) :
  map fst (set_count l v c) =
  match get_count l c with
  | Some _ => map fst c
  | None => map fst c ++ [l]
  end.
Proof.
  induction c as [|[k x] c IH]; simpl; [reflexivity|].
  destruct (String.eqb k l) eqn:E; simpl; [reflexivity|].
  rewrite IH. destruct (get_count l c); reflexivity.
Qed.

Lemma get_count_None (l : string) (c : list (string * Z)) :
  get_count l c = None <-> ~ In l (map fst c).
Proof.
  induction c as [|[k x] c IH]; simpl; [tauto|].
  destruct (String.eqb k l) eqn:E.
  - apply String.eqb_eq in E. split; [discriminate | tauto].
  - apply String.eqb_neq in E. tauto.
Qed.

Lemma count_occ_snoc (labels : list string) (l0 l : string) :
  count_occ string_dec (labels ++ [l0]) l =
  if string_dec l0 l then S (count_occ string_dec labels l)
  else count_occ string_dec labels l.
Proof.
  rewrite count_occ_app. simpl. destruct (string_dec l0 l); lia.
Qed.

(** One step of the tally keeps the keys distinct and the counts exact. *)
Lemma count_genre_step (seen : list Genre) (c : list (string * Z)) (g : Genre) :
  List.NoDup (map fst c) ->
  (forall l, get_count l c = tallied (count_occ string_dec (map genre_name seen) l)) ->
  List.NoDup (map fst (count_genre c g)) /\
  (forall l, get_count l (count_genre c g) =
             tallied (count_occ string_dec (map genre_name (seen ++ [g])) l)).
Proof.
  intros Hnd Hc. unfold count_genre.
  pose proof (Hc (genre_name g)) as Hg.
  assert (Hstep : forall v,
             v = Z.of_nat (S (count_occ string_dec (map genre_name seen) (genre_name g))) ->
             forall l, get_count l (set_count (genre_name g) v c) =
                       tallied (count_occ string_dec (map genre_name (seen ++ [g])) l)).
  { intros v -> l. rewrite map_app. simpl. rewrite count_occ_snoc.
    destruct (string_dec (genre_name g) l) as [<-|Hne].
    - rewrite get_count_set_same. reflexivity.
    - rewrite get_count_set_other by exact Hne. apply Hc. }
  destruct (count_occ string_dec (map genre_name seen) (genre_name g)) as [|n] eqn:Hn;
    simpl in Hg; rewrite Hg.
  - split.
    + rewrite keys_set_count, Hg. apply List.NoDup_app; [exact Hnd| |].
      * constructor; [intros []|constructor].
      * intros x Hx [<-|[]]. apply (proj1 (get_count_None _ _) Hg). exact Hx.
    + apply Hstep. reflexivity.
  - cbn [truthy].
    replace (Z.of_nat (S n) =? 0) with false by (symmetry; apply Z.eqb_neq; lia).
    cbn [negb]. split.
    + rewrite keys_set_count, Hg. exact Hnd.
    + apply Hstep. lia.
Qed.

Lemma count_genre_fold (gs seen : list Genre) (c : list (string * Z)) :
  List.NoDup (map fst c) ->
  (forall l, get_count l c = tallied (count_occ string_dec (map genre_name seen) l)) ->
  List.NoDup (map fst (fold_left count_genre gs c)) /\
  (forall l, get_count l (fold_left count_genre gs c) =
             tallied (count_occ string_dec (map genre_name (seen ++ gs)) l)).
Proof.
  revert seen c. induction gs as [|g gs IH]; intros seen c Hnd Hc; simpl.
  - rewrite app_nil_r. auto.
  - destruct (count_genre_step seen c g Hnd Hc) as [Hnd' Hc'].
    replace (seen ++ g :: gs) with ((seen ++ [g]) ++ gs)
      by (rewrite <- app_assoc; reflexivity).
    apply IH; assumption.
Qed.

Lemma count_genres_flat (games : list RawgGame) (c : list (string * Z)) :
  fold_left (fun genreCounts game => fold_left count_genre (genres game) genreCounts) games c =
  fold_left count_genre (flat_map genres games) c.
Proof.
  revert c. induction games as [|game games IH]; intros c; simpl; [reflexivity|].
  rewrite fold_left_app. apply IH.
Qed.

(** The tally: distinct keys, each with the number of its occurrences. *)
Lemma count_genres_exact (games : list RawgGame) :
  List.NoDup (map fst (count_genres games)) /\
  (forall l, get_count l (count_genres games) =
             tallied (count_occ string_dec (map genre_name (flat_map genres games)) l)).
Proof.
  unfold count_genres. rewrite count_genres_flat.
  apply (count_genre_fold (flat_map genres games) [] []).
  - constructor.
  - intros l. reflexivity.
Qed.



(** *** The object and the tally *)

Lemma fold_flat_map {X Y W : Type} (f : X -> W -> X) (g : Y -> list W) (l : list Y) (x : X) :
  fold_left (fun x y => fold_left f (g y) x) l x = fold_left f (flat_map g l) x.
Proof.
  revert x. induction l as [|y l IH]; intros x; simpl; [reflexivity|].
  rewrite fold_left_app. apply IH.
Qed.

Lemma own_property_object_of (l : string) (c : list (string * Z)) :
  own_property l (object_of c) = option_map Counted (get_count l c).
Proof.
  induction c as [|[k v] c IH]; simpl; [reflexivity|].
  destruct (String.eqb k l); [reflexivity | exact IH].
Qed.

Lemma assign_object_of (l : string) (v : Z) (c : list (string * Z)) :
  assign l (Counted v) (object_of c) = object_of (set_count l v c).
Proof.
  induction c as [|[k w] c IH]; simpl; [reflexivity|].
  destruct (String.eqb k l); simpl; [reflexivity|]. rewrite IH. reflexivity.
Qed.

Lemma countGenre_object_of (c : list (string * Z)) (g : Genre) :
  inherited (genre_name g) = false ->
  countGenre (object_of c) g = object_of (count_genre c g).
Proof.
  intros Hg. unfold countGenre, count_genre. cbv zeta.
  rewrite own_property_object_of.
  destruct (get_count (genre_name g) c) as [n|]; cbn [option_map].
  - destruct (truthy (VNum n)); apply assign_object_of.
  - rewrite Hg. apply assign_object_of.
Qed.

Lemma fold_countGenre_object_of (gs : list Genre) (c : list (string * Z)) :
  Forall (fun l => inherited l = false) (map genre_name gs) ->
  fold_left countGenre gs (object_of c) = object_of (fold_left count_genre gs c).
Proof.
  revert c. induction gs as [|g gs IH]; intros c Hgs; simpl; [reflexivity|].
  simpl in Hgs. apply Forall_cons_iff in Hgs as [Hg Hgs].
  rewrite countGenre_object_of by exact Hg. apply IH, Hgs.
Qed.

(** As long as no genre bears an inherited name, the object holds the
    tally. *)
Lemma genreCounts_object_of (games : list RawgGame) :
  Forall (fun l => inherited l = false) (map genre_name (flat_map genres games)) ->
  genreCounts games = object_of (count_genres games).
Proof.
  intros H. unfold genreCounts, count_genres. rewrite !fold_flat_map.
  apply (fold_countGenre_object_of _ [] H).
Qed.



Lemma Object_keys_plain (object : list (string * Count)) :
  Forall (fun name => array_index name = None) (map fst object) ->
  Object_keys object = map fst object.
Proof.
  unfold Object_keys. generalize (map fst object) as names. intros names H.
  induction H as [|name names Hname H IH]; [reflexivity|].
  cbn [flat_map List.filter]. rewrite Hname. cbn [app]. revert IH.
  generalize (fold_right insert_index []
                (flat_map (fun name => match array_index name with
                                       | Some n => [(n, name)]
                                       | None => []
                                       end) names)) as indexed.
  intros indexed IH.
  assert (Hlen : length (map snd indexed
                         ++ List.filter (fun name => match array_index name with
                                                     | Some _ => false
                                                     | None => true
                                                     end) names) = length names)
    by (rewrite IH; reflexivity).
  destruct indexed as [|k l].
  - simpl in *. f_equal. exact IH.
  - exfalso. rewrite length_app in Hlen. simpl in Hlen.
    pose proof (filter_length_le (fun name => match array_index name with
                                              | Some _ => false
                                              | None => true
                                              end) names) as Hle.
    assert (Hall : List.filter (fun name => match array_index name with
                                            | Some _ => false
                                            | None => true
                                            end) names = names).
    { clear -H. induction H as [|n ns Hn H IH]; simpl; [reflexivity|].
      rewrite Hn, IH. reflexivity. }
    rewrite Hall in Hlen. lia.
Qed.

(** A name beginning with a capital letter is neither inherited nor an
    array index. *)
Lemma genre_like_plain (l : string) :
  genre_like l = true -> inherited l = false /\ array_index l = None.
Proof.
  destruct l as [|c s]; [discriminate|]. simpl.
  destruct c as [b0 b1 b2 b3 b4 b5 b6 b7].
  destruct b0, b1, b2, b3, b4, b5, b6, b7; intros H; cbv in H; try discriminate H;
    (split; [reflexivity|]); unfold array_index; simpl;
    destruct (NilEmpty.uint_of_string s); reflexivity.
Qed.

Lemma keys_of_tally (games : list RawgGame) (l : string) :
  In l (map fst (count_genres games)) <->
  In l (map genre_name (flat_map genres games)).
Proof.
  destruct (count_genres_exact games) as [_ Hc].
  pose proof (get_count_None l (count_genres games)) as Hn. rewrite Hc in Hn.
  pose proof (count_occ_In string_dec (map genre_name (flat_map genres games)) l) as Hocc.
  destruct (count_occ string_dec (map genre_name (flat_map genres games)) l) as [|n];
    simpl in Hn.
  - split; [intros H; exfalso; apply (proj1 Hn); auto | intros H].
    apply Hocc in H. lia.
  - split; [intros _; apply Hocc; lia|]. intros _.
    destruct (in_dec string_dec l (map fst (count_genres games))) as [H|H]; [exact H|].
    apply Hn in H. discriminate.
Qed.

Lemma keys_object_of (c : list (string * Z)) : map fst (object_of c) = map fst c.
Proof. unfold object_of. rewrite map_map. reflexivity. Qed.

Lemma formattedGenres_object_of (c : list (string * Z)) :
  Forall (fun name => array_index name = None) (map fst c) ->
  formattedGenres (object_of c) = formatGenres c.
Proof.
  intros H. unfold formattedGenres, formatGenres.
  rewrite Object_keys_plain, keys_object_of by (rewrite keys_object_of; exact H).
  apply map_ext. intros l. rewrite own_property_object_of.
  destruct (get_count l c); reflexivity.
Qed.

(** For genre names as RAWG writes them the object and its keys are the
    tally and its keys. *)
Lemma formattedGenres_tally (games : list RawgGame) :
  Forall (fun l => genre_like l = true) (map genre_name (flat_map genres games)) ->
  formattedGenres (genreCounts games) = formatGenres (count_genres games).
Proof.
  intros H. rewrite genreCounts_object_of.
  - apply formattedGenres_object_of. apply Forall_forall. intros l Hl.
    apply list_elem_of_In, keys_of_tally in Hl.
    rewrite Forall_forall in H. apply genre_like_plain, H, list_elem_of_In, Hl.
  - apply Forall_forall. intros l Hl. rewrite Forall_forall in H.
    apply genre_like_plain, H, Hl.
Qed.

(** *** Lower case *)









(** The example of the specification, a label of three words, a label that
    is an array index (it comes first) and a genre named constructor, once
    (its count is not a number). *)
Example fetchGenreTrends_example :
  fst (run (healthy []) fetchGenreTrends cold) =
  Returns [ {| GenreStat.id := "action"; GenreStat.label := "Action";
               GenreStat.value := VNum 2 |};
            {| GenreStat.id := "rpg"; GenreStat.label := "RPG";
               GenreStat.value := VNum 1 |} ] /\
  formattedGenres [("Massively Multiplayer Online", Counted 3)] =
  [ {| GenreStat.id := "massively-multiplayer online";
       GenreStat.label := "Massively Multiplayer Online";
       GenreStat.value := VNum 3 |} ] /\
  map GenreStat.label
      (formattedGenres (genreCounts [ game_with 1 "Alpha" ["Action"; "2"; "constructor"] ]))
  = ["2"; "Action"; "constructor"] /\
  map GenreStat.value
      (formattedGenres (genreCounts [ game_with 1 "Alpha" ["Action"; "2"; "constructor"] ]))
  = [VNum 1; VNum 1; VNaN].
Proof. repeat split; reflexivity. Qed.

(** ** Calls in flight together *)

Section Schedule.
Context {A : Type} (net : Network).

Lemma run_token_only (m : Async A) (st st' : State) :
  twitchToken st = twitchToken st' -> fst (run net m st) = fst (run net m st').
Proof.
  revert st st'. induction m as [a|e|k IH|v k IH|r k IH|k IH]; intros st st' Heq; simpl.
  - reflexivity.
  - reflexivity.
  - rewrite Heq. apply IH. exact Heq.
  - apply IH. reflexivity.
  - apply IH. exact Heq.
  - apply IH. exact Heq.
Qed.

Lemma fresh_reads_weaken (m : Async A) : fresh_reads false m -> fresh_reads true m.
Proof. destruct m; simpl; auto. intros [H _]. discriminate. Qed.

(** A call that only makes fresh reads settles with the outcome it has
    when awaited on its own. *)
Lemma fresh_reads_settles (m : Async A) (fresh : bool) (st : State) :
  fresh_reads fresh m ->
  settles net (if fresh then Some (twitchToken st) else None) m (fst (run net m st)).
Proof.
  revert fresh st.
  induction m as [a|e|k IH|v k IH|r k IH|k IH]; intros fresh st Hm; simpl in *.
  - reflexivity.
  - reflexivity.
  - destruct Hm as [-> Hk]. apply (IH _ true st). apply Hk.
  - apply (IH true (set_token v st)). exact Hm.
  - apply (IH _ false (issue r st)). apply Hm.
  - apply (IH false st). exact Hm.
Qed.

Lemma settles_advance (m : Async A) (known : option JsVal) (st : State) (o : Outcome A) :
  settles net known m o ->
  (forall v, known = Some v -> twitchToken st = v) ->
  task_settles net (fst (advance m st)) o.
Proof.
  revert known st.
  induction m as [a|e|k IH|v k IH|r k IH|k IH]; intros known st Hs Hk; simpl in *.
  - symmetry. exact Hs.
  - symmetry. exact Hs.
  - destruct known as [v|].
    + rewrite (Hk v eq_refl). apply (IH v (Some v)); [exact Hs|].
      intros v' [= <-]. apply Hk. reflexivity.
    + apply (IH _ (Some (twitchToken st))); [apply Hs|].
      intros v' [= <-]. reflexivity.
  - apply (IH (Some v)); [exact Hs|]. intros v' [= <-]. reflexivity.
  - exact Hs.
  - exact Hs.
Qed.

Lemma settles_run (m : Async A) (known : option JsVal) (st : State) (o : Outcome A) :
  settles net known m o ->
  (forall v, known = Some v -> twitchToken st = v) ->
  fst (run net m st) = o.
Proof.
  revert known st.
  induction m as [a|e|k IH|v k IH|r k IH|k IH]; intros known st Hs Hk; simpl in *.
  - symmetry. exact Hs.
  - symmetry. exact Hs.
  - destruct known as [v|].
    + rewrite (Hk v eq_refl). apply (IH v (Some v)); [exact Hs|].
      intros v' [= <-]. apply Hk. reflexivity.
    + apply (IH _ (Some (twitchToken st))); [apply Hs|].
      intros v' [= <-]. reflexivity.
  - apply (IH (Some v)); [exact Hs|]. intros v' [= <-]. reflexivity.
  - apply (IH _ None); [exact Hs|]. intros v' [=].
  - apply (IH None); [exact Hs|]. intros v' [=].
Qed.

Lemma settles_resume (t : Task A) (st : State) (o : Outcome A) :
  task_settles net t o -> task_settles net (fst (resume net t st)) o.
Proof.
  destruct t as [o'|r k|k]; simpl; intros Hs.
  - exact Hs.
  - apply (settles_advance _ None); [exact Hs|]. intros v [=].
  - apply (settles_advance _ None); [exact Hs|]. intros v [=].
Qed.

Lemma settles_finish (t : Task A) (st : State) (o : Outcome A) :
  task_settles net t o -> fst (finish net t st) = o.
Proof.
  destruct t as [o'|r k|k]; simpl; intros Hs.
  - exact Hs.
  - apply (settles_run _ None); [exact Hs|]. intros v [=].
  - apply (settles_run _ None); [exact Hs|]. intros v [=].
Qed.

(** A task that settles with a value is never noted as a rejection. *)
Lemma note_rejection_returns (t : Task A) (a : A) :
  task_settles net t (Returns a) -> note_rejection t None = None.
Proof. destruct t as [[a'|e]|r k|k]; simpl; auto. discriminate. Qed.

End Schedule.

Lemma fresh_reads_bind {A B : Type} (m : Async A) (f : A -> Async B) (fresh : bool) :
  fresh_reads fresh m -> (forall a, fresh_reads false (f a)) -> fresh_reads fresh (bind m f).
Proof.
  revert fresh. induction m as [a|e|k IH|v k IH|r k IH|k IH]; intros fresh Hm Hf; simpl in *.
  - destruct fresh; [apply fresh_reads_weaken|]; apply Hf.
  - exact I.
  - destruct Hm as [-> Hk]. split; [reflexivity|]. intros v. apply IH; auto.
  - apply IH; auto.
  - intros x. apply IH; auto.
  - apply IH; auto.
Qed.

Lemma fresh_reads_try_catch {A : Type} (m : Async A) (h : Exn -> Async A) (fresh : bool) :
  fresh_reads fresh m -> (forall e, fresh_reads false (h e)) ->
  fresh_reads fresh (try_catch m h).
Proof.
  revert fresh. induction m as [a|e|k IH|v k IH|r k IH|k IH]; intros fresh Hm Hh; simpl in *.
  - exact I.
  - destruct fresh; [apply fresh_reads_weaken|]; apply Hh.
  - destruct Hm as [-> Hk]. split; [reflexivity|]. intros v. apply IH; auto.
  - apply IH; auto.
  - intros x. apply IH; auto.
  - apply IH; auto.
Qed.

Lemma fresh_reads_await {A : Type} (m : Async A) (fresh : bool) :
  fresh_reads fresh m -> fresh_reads fresh (await m).
Proof.
  revert fresh. induction m as [a|e|k IH|v k IH|r k IH|k IH]; intros fresh Hm; simpl in *.
  - exact I.
  - exact I.
  - destruct Hm as [-> Hk]. split; [reflexivity|]. intros v. apply IH; auto.
  - apply IH; auto.
  - intros x. apply IH; auto.
  - apply IH; auto.
Qed.

Lemma fresh_reads_getTwitchAccessToken : fresh_reads true getTwitchAccessToken.
Proof.
  unfold getTwitchAccessToken. simpl. split; [reflexivity|]. intros v.
  destruct (truthy v); simpl; [exact I|].
  intros [token|e]; simpl; [auto|].
  destruct (response e); exact I.
Qed.

Lemma fresh_reads_fetchLiveViewers (gameName : JsVal) :
  fresh_reads true (fetchLiveViewers gameName).
Proof.
  unfold fetchLiveViewers. destruct (truthy gameName); cbn [negb]; [|exact I].
  apply fresh_reads_try_catch; [|intros e; exact I].
  apply fresh_reads_bind.
  - apply fresh_reads_await, fresh_reads_getTwitchAccessToken.
  - intros token. simpl. intros [[|first others]|e]; simpl; try exact I.
    intros [streams|e]; exact I.
Qed.

Lemma fresh_reads_trendingEntry (game : RawgGame) : fresh_reads true (trendingEntry game).
Proof.
  unfold trendingEntry. apply fresh_reads_bind.
  - apply fresh_reads_await, fresh_reads_fetchLiveViewers.
  - intros n. exact I.
Qed.

Lemma quiet_start_trendingEntry (game : RawgGame) : quiet_start (trendingEntry game).
Proof.
  intros st. unfold trendingEntry, fetchLiveViewers, getTwitchAccessToken.
  destruct (truthy (game_name game)); simpl; [|reflexivity].
  destruct (truthy (twitchToken st)); reflexivity.
Qed.

Lemma run_trendingEntry (net : Network) (game : RawgGame) (st : State) :
  fst (run net (trendingEntry game) st) =
  Returns (record_of game (viewers net (game_name game) st)).
Proof.
  unfold trendingEntry, viewers. rewrite run_bind, run_await.
  destruct (fetchLiveViewers_returns net (game_name game) st) as (n & st' & ->).
  reflexivity.
Qed.

(** ** [Promise.all] *)

Lemma run_ext {A : Type} (net net' : Network) (m : Async A) (st : State) :
  (forall r, net' r = net r) -> run net' m st = run net m st.
Proof.
  intros Hext. revert st.
  induction m as [a|e|k IH|v k IH|r k IH|k IH]; intros st; simpl; auto.
  rewrite Hext. apply IH.
Qed.

Lemma values_returns {A : Type} (l : list A) : values (map Returns l) = l.
Proof.
  unfold values. induction l as [|a l IH]; simpl; [reflexivity|].
  f_equal. exact IH.
Qed.

Section Pool.
Context {A : Type}.
Implicit Types (provider : nat -> Network) (ts : list (Task A)) (os : list (Outcome A)).

Lemma settle_all_cons provider t ts o os :
  task_settles (provider 0%nat) t o ->
  settle_all (fun j => provider (S j)) ts os ->
  settle_all provider (t :: ts) (o :: os).
Proof.
  intros H0 [Hlen Hall]. split; [simpl; congruence|].
  intros [|i] t' o'; simpl.
  - intros [= <-] [= <-]. exact H0.
  - apply Hall.
Qed.

Lemma settle_all_uncons provider t ts o os :
  settle_all provider (t :: ts) (o :: os) ->
  task_settles (provider 0%nat) t o /\ settle_all (fun j => provider (S j)) ts os.
Proof.
  intros [Hlen Hall]. split; [apply (Hall 0%nat); reflexivity|].
  split; [simpl in Hlen; congruence|].
  intros i t' o' Ht Ho. apply (Hall (S i)); assumption.
Qed.

Lemma settle_all_ext provider provider' ts os :
  (forall j, provider' j = provider j) ->
  settle_all provider ts os -> settle_all provider' ts os.
Proof.
  intros Hext [Hlen Hall]. split; [exact Hlen|].
  intros i t o Ht Ho. rewrite Hext. apply Hall; assumption.
Qed.

(** Starting the calls: each one settles with the outcome it has when
    awaited on its own from the state the calls were started in. *)
Lemma start_all_settles (ms : list (Async A)) :
  forall provider (st : State) (rs : list A),
    length rs = length ms ->
    (forall i m, ms !! i = Some m -> fresh_reads true m /\ quiet_start m) ->
    (forall i m a, ms !! i = Some m -> rs !! i = Some a ->
                   fst (run (provider i) m st) = Returns a) ->
    let p := start_all ms None st in
    settle_all provider (tasks p) (map Returns rs) /\
    rejection p = None /\
    twitchToken (pool_state p) = twitchToken st.
Proof.
  induction ms as [|m ms IH]; intros provider st rs Hlen Hms Hrun.
  - destruct rs; [|discriminate]. simpl. repeat split. intros i t o [=].
  - destruct rs as [|a rs]; [discriminate|]. cbv zeta. cbn [start_all].
    destruct (Hms 0%nat m eq_refl) as [Hfresh Hquiet].
    pose proof (Hquiet st) as Htok.
    pose proof (fresh_reads_settles (provider 0%nat) m true st Hfresh) as Hs.
    rewrite (Hrun 0%nat m a eq_refl eq_refl) in Hs.
    apply settles_advance with (st := st) in Hs;
      [|intros v [= <-]; reflexivity].
    destruct (advance m st) as [t st1]. simpl in Htok, Hs.
    rewrite (note_rejection_returns (provider 0%nat) t a Hs).
    destruct (IH (fun j => provider (S j)) st1 rs) as (Hall & Hrej & Htok').
    + simpl in Hlen. congruence.
    + intros i m' Hm'. apply (Hms (S i)). exact Hm'.
    + intros i m' a' Hm' Ha'.
      rewrite (run_token_only _ _ st1 st Htok). apply (Hrun (S i)); assumption.
    + simpl. split; [|split].
      * apply settle_all_cons; assumption.
      * exact Hrej.
      * congruence.
Qed.

Lemma deliver_settles provider (p : Pool A) (rs : list A) (i : nat) :
  settle_all provider (tasks p) (map Returns rs) ->
  rejection p = None ->
  settle_all provider (tasks (deliver provider p i)) (map Returns rs) /\
  rejection (deliver provider p i) = None.
Proof.
  intros [Hlen Hall] Hrej. unfold deliver.
  destruct (tasks p !! i) as [t|] eqn:Ht; [|split; [split|]; assumption].
  assert (Hi : (i < length (tasks p))%nat) by (eapply lookup_lt_Some; exact Ht).
  destruct (lookup_lt_is_Some_2 (map Returns rs) i) as [o Ho]; [lia|].
  assert (Ha : exists a, o = Returns a).
  { rewrite lookup_map in Ho. destruct (rs !! i) as [a|]; [|discriminate].
    injection Ho as <-. eauto. }
  destruct Ha as [a ->].
  pose proof (Hall i t _ Ht Ho) as Hs.
  assert (Hstep : forall t' st',
             resume (provider i) t (pool_state p) = (t', st') ->
             settle_all provider (<[i:=t']> (tasks p)) (map Returns rs) /\
             note_rejection t' (rejection p) = None).
  { intros t' st' Hres.
    pose proof (settles_resume (provider i) t (pool_state p) _ Hs) as Hs'.
    rewrite Hres in Hs'. simpl in Hs'. split.
    - split; [rewrite length_insert; exact Hlen|].
      intros j t2 o2 Ht2 Ho2. apply list_lookup_insert_Some in Ht2.
      destruct Ht2 as [(<- & <- & _)|[Hne Ht2]].
      + rewrite Ho in Ho2. injection Ho2 as <-. exact Hs'.
      + apply (Hall j); assumption.
    - rewrite Hrej. apply (note_rejection_returns (provider i) t' a Hs'). }
  destruct t as [o'|r k|k].
  - split; [split|]; assumption.
  - destruct (resume (provider i) (AwaitingReply r k) (pool_state p)) as [t' st'] eqn:E.
    apply (Hstep t' st'). reflexivity.
  - destruct (resume (provider i) (AwaitingTick k) (pool_state p)) as [t' st'] eqn:E.
    apply (Hstep t' st'). reflexivity.
Qed.

Lemma arrivals_settle provider (arrivals : list nat) (p : Pool A) (rs : list A) :
  settle_all provider (tasks p) (map Returns rs) ->
  rejection p = None ->
  let p' := fold_left (deliver provider) arrivals p in
  settle_all provider (tasks p') (map Returns rs) /\ rejection p' = None.
Proof.
  revert p. induction arrivals as [|i arrivals IH]; intros p Hall Hrej; simpl.
  - split; assumption.
  - destruct (deliver_settles provider p rs i Hall Hrej) as [Hall' Hrej'].
    apply IH; assumption.
Qed.

Lemma drain_settles ts :
  forall provider (i : nat) (st : State) (rs : list A),
    settle_all (fun j => provider (i + j)%nat) ts (map Returns rs) ->
    exists st', drain provider i ts None st = (map Returns rs, None, st').
Proof.
  induction ts as [|t ts IH]; intros provider i st rs Hall.
  - destruct rs; [|destruct Hall as [Hlen _]; discriminate]. simpl. eauto.
  - destruct rs as [|a rs]; [destruct Hall as [Hlen _]; discriminate|].
    simpl in Hall. apply settle_all_uncons in Hall. destruct Hall as [H0 Hall].
    rewrite Nat.add_0_r in H0.
    pose proof (settles_finish (provider i) t st _ H0) as Hfin.
    simpl. destruct (finish (provider i) t st) as [o st1]. simpl in Hfin. subst o.
    simpl.
    destruct (IH provider (S i) st1 rs) as [st' Hdrain].
    + apply (settle_all_ext (fun j => provider (i + S j)%nat)); [|exact Hall].
      intros j. f_equal. lia.
    + rewrite Hdrain. eauto.
Qed.

(** The result of [Promise.all] does not depend on the order of arrival:
    it is the array of the values the calls return when awaited on their
    own, indexed like the calls. *)
Lemma promise_all_settles provider (arrivals : list nat) (ms : list (Async A))
    (st : State) (rs : list A) :
  length rs = length ms ->
  (forall i m, ms !! i = Some m -> fresh_reads true m /\ quiet_start m) ->
  (forall i m a, ms !! i = Some m -> rs !! i = Some a ->
                 fst (run (provider i) m st) = Returns a) ->
  exists st', promise_all provider arrivals ms st = (Returns rs, st').
Proof.
  intros Hlen Hms Hrun. unfold promise_all.
  destruct (start_all_settles ms provider st rs Hlen Hms Hrun) as (Hall & Hrej & _).
  destruct (arrivals_settle provider arrivals _ rs Hall Hrej) as [Hall' Hrej'].
  destruct (drain_settles _ provider 0%nat
              (pool_state (fold_left (deliver provider) arrivals (start_all ms None st)))
              rs Hall') as [st' Hdrain].
  rewrite Hrej', Hdrain, values_returns. eauto.
Qed.

End Pool.

(** ** Trending games *)

(** Whatever the order of arrival, [fetchTrendingGames] returns, in catalog
    order, the record of each game with the viewers its own lookup finds. *)
Lemma fetchTrendingGames_records (rawg : Network) (twitch : nat -> Network)
    (arrivals : list nat) (st : State) (games : list RawgGame) :
  rawg (GetRawgGames "-added" 5) = Fulfilled games ->
  exists st',
    fetchTrendingGames rawg twitch arrivals st =
    (Returns (imap (fun i game =>
                      record_of game (viewers (twitch i) (game_name game)
                                              (issue (GetRawgGames "-added" 5) st)))
                   games),
     st').
Proof.
  intros Hnet. unfold fetchTrendingGames, await_axios. simpl. rewrite Hnet. simpl.
  apply promise_all_settles.
  - rewrite length_imap, length_map. reflexivity.
  - intros i m Hm. rewrite lookup_map in Hm.
    destruct (games !! i) as [game|]; [|discriminate]. injection Hm as <-.
    split; [apply fresh_reads_trendingEntry | apply quiet_start_trendingEntry].
  - intros i m a Hm Ha. rewrite lookup_map in Hm. rewrite list_lookup_imap in Ha.
    destruct (games !! i) as [game|]; [|discriminate].
    injection Hm as <-. injection Ha as <-. apply run_trendingEntry.
Qed.

Lemma viewers_returned (net : Network) (gameName : JsVal) (st : State) :
  fst (run net (fetchLiveViewers gameName) st) = Returns (viewers net gameName st).
Proof.
  unfold viewers.
  destruct (fetchLiveViewers_returns net gameName st) as (n & st' & ->). reflexivity.
Qed.

(** C3: when the catalog request succeeds, [fetchTrendingGames] returns one
    record per catalog item, the record at each position carrying the [id],
    [name] and [image] of the item at that position and the viewers found by
    that item's lookup; the array returned is the same for every order in
    which the replies to the lookups arrive. *)
Theorem fetchTrendingGames_order (rawg : Network) (twitch : nat -> Network)
    (arrivals : list nat) (st : State) (games : list RawgGame) :
  rawg (GetRawgGames "-added" 5) = Fulfilled games ->
  exists out st',
    fetchTrendingGames rawg twitch arrivals st = (Returns out, st') /\
    length out = length games /\
    (forall (i : nat) (game : RawgGame),
       games !! i = Some game ->
       exists n,
         out !! i = Some {| LiveRecord.id := game_id game;
                            LiveRecord.name := game_name game;
                            LiveRecord.image := background_image game;
                            LiveRecord.liveViewers := n |} /\
         fst (run (twitch i) (fetchLiveViewers (game_name game))
                  (issue (GetRawgGames "-added" 5) st)) = Returns n) /\
    (forall arrivals', fst (fetchTrendingGames rawg twitch arrivals' st) = Returns out).
Proof.
  intros Hnet.
  destruct (fetchTrendingGames_records rawg twitch arrivals st games Hnet) as [st' Hrun].
  eexists _, st'. split; [exact Hrun|]. split; [apply length_imap|]. split.
  - intros i game Hgame.
    exists (viewers (twitch i) (game_name game) (issue (GetRawgGames "-added" 5) st)).
    split; [|apply viewers_returned].
    rewrite list_lookup_imap, Hgame. reflexivity.
  - intros arrivals'.
    destruct (fetchTrendingGames_records rawg twitch arrivals' st games Hnet) as [st2 ->].
    reflexivity.
Qed.

(** C6: when the lookup for one catalog item meets a network exception,
    [fetchTrendingGames] still returns; the record of that item has
    [liveViewers] 0, and every other record is what it is when that lookup
    meets a network behaving otherwise. *)
Theorem fetchTrendingGames_isolates_failure (rawg : Network) (twitch twitch' : nat -> Network)
    (arrivals arrivals' : list nat) (st : State) (games : list RawgGame)
    (i : nat) (game : RawgGame) :
  rawg (GetRawgGames "-added" 5) = Fulfilled games ->
  games !! i = Some game ->
  lookup_fails (twitch i) (game_name game) (twitchToken st) = true ->
  (forall j r, j <> i -> twitch' j r = twitch j r) ->
  exists out out' st1 st1',
    fetchTrendingGames rawg twitch arrivals st = (Returns out, st1) /\
    fetchTrendingGames rawg twitch' arrivals' st = (Returns out', st1') /\
    out !! i = Some {| LiveRecord.id := game_id game;
                       LiveRecord.name := game_name game;
                       LiveRecord.image := background_image game;
                       LiveRecord.liveViewers := 0 |} /\
    (forall j, j <> i -> out !! j = out' !! j).
Proof.
  intros Hnet Hgame Hfail Hsame.
  destruct (fetchTrendingGames_records rawg twitch arrivals st games Hnet) as [st1 Hrun].
  destruct (fetchTrendingGames_records rawg twitch' arrivals' st games Hnet) as [st1' Hrun'].
  eexists _, _, st1, st1'. split; [exact Hrun|]. split; [exact Hrun'|]. split.
  - rewrite list_lookup_imap, Hgame. simpl. unfold record_of. do 2 f_equal.
    pose proof (lookup_fails_zero (twitch i) (game_name game)
                  (issue (GetRawgGames "-added" 5) st) Hfail) as Hz.
    rewrite viewers_returned in Hz. congruence.
  - intros j Hj. rewrite !list_lookup_imap.
    destruct (games !! j) as [g|]; [|reflexivity]. simpl. do 2 f_equal.
    unfold viewers. rewrite (run_ext (twitch j) (twitch' j)); [reflexivity|].
    intros r. apply Hsame. exact Hj.
Qed.

Lemma fetchTrendingGames_order_witness :
  exists out st',
    fetchTrendingGames (healthy []) flaky [1; 0; 1; 1; 0]%nat cold = (Returns out, st') /\
    length out = 2%nat /\
    (forall (i : nat) (game : RawgGame),
       [ game_with 1 "Alpha" ["Action"; "RPG"]; game_with 2 "Beta" ["Action"] ] !! i
       = Some game ->
       exists n,
         out !! i = Some {| LiveRecord.id := game_id game;
                            LiveRecord.name := game_name game;
                            LiveRecord.image := background_image game;
                            LiveRecord.liveViewers := n |} /\
         fst (run (flaky i) (fetchLiveViewers (game_name game))
                  (issue (GetRawgGames "-added" 5) cold)) = Returns n) /\
    (forall arrivals', fst (fetchTrendingGames (healthy []) flaky arrivals' cold) = Returns out).
Proof.
  exact (fetchTrendingGames_order (healthy []) flaky [1; 0; 1; 1; 0]%nat cold _ eq_refl).
Defined.

Lemma fetchTrendingGames_isolates_failure_witness :
  exists out out' st1 st1',
    fetchTrendingGames (healthy []) flaky [1; 0; 0; 1]%nat cold = (Returns out, st1) /\
    fetchTrendingGames (healthy []) (fun _ => healthy [120; 80; 300]) [0; 1]%nat cold =
    (Returns out', st1') /\
    out !! 1%nat = Some {| LiveRecord.id := VNum 2;
                           LiveRecord.name := VStr "Beta";
                           LiveRecord.image := VNull;
                           LiveRecord.liveViewers := 0 |} /\
    (forall j, j <> 1%nat -> out !! j = out' !! j).
Proof.
  apply (fetchTrendingGames_isolates_failure (healthy []) flaky
           (fun _ => healthy [120; 80; 300]) [1; 0; 0; 1]%nat [0; 1]%nat cold
           [ game_with 1 "Alpha" ["Action"; "RPG"]; game_with 2 "Beta" ["Action"] ]
           1%nat (game_with 2 "Beta" ["Action"])).
  - reflexivity.
  - reflexivity.
  - reflexivity.
  - intros [|[|j]] r Hj; [reflexivity | contradiction | reflexivity].
Defined.

(** Two orders of arrival on a cold cache: the same array, in catalog order;
    each lookup exchanged a token of its own. *)
Example fetchTrendingGames_example :
  fst (fetchTrendingGames (healthy []) flaky [1; 0; 0; 0; 0; 1; 1]%nat cold) =
  Returns [ record_of (game_with 1 "Alpha" ["Action"; "RPG"]) 500;
            record_of (game_with 2 "Beta" ["Action"]) 0 ] /\
  fst (fetchTrendingGames (healthy []) flaky [0; 0; 1; 7; 0]%nat cold) =
  Returns [ record_of (game_with 1 "Alpha" ["Action"; "RPG"]) 500;
            record_of (game_with 2 "Beta" ["Action"]) 0 ] /\
  token_fetches (snd (fetchTrendingGames (healthy []) flaky [0; 0; 1; 7; 0]%nat cold)) = 2%nat.
Proof. repeat split; reflexivity. Qed.


(** * Further properties of the service *)

(** ** The token cache, once more *)

(** X1: on an empty cache, an exchange that succeeds with a non-empty token
    returns the token and stores it; the next call returns the same token
    and sends nothing, whatever has become of the network. *)
Theorem token_cached_after_success (net net' : Network) (st : State) (token : JsVal) :
  truthy (twitchToken st) = false ->
  net PostTwitchToken = Fulfilled token ->
  truthy token = true ->
  let st1 := snd (run net getTwitchAccessToken st) in
  fst (run net getTwitchAccessToken st) = Returns token /\
  twitchToken st1 = token /\
  requests st1 = PostTwitchToken :: requests st /\
  run net' getTwitchAccessToken st1 = (Returns token, st1).
Proof.
  intros Hcold Hnet Htok. cbv zeta.
  rewrite (run_getTwitchAccessToken net' _), (run_getTwitchAccessToken net st).
  rewrite Hcold, Hnet. simpl. rewrite Htok. auto.
Qed.

Lemma token_cached_after_success_witness :
  let st1 := snd (run (healthy []) getTwitchAccessToken cold) in
  fst (run (healthy []) getTwitchAccessToken cold) = Returns (VStr "tok") /\
  twitchToken st1 = VStr "tok" /\
  requests st1 = PostTwitchToken :: requests cold /\
  run (down no_response) getTwitchAccessToken st1 = (Returns (VStr "tok"), st1).
Proof.
  exact (token_cached_after_success (healthy []) (down no_response) cold (VStr "tok")
           eq_refl eq_refl eq_refl).
Defined.

(** X2: a lookup for a named game whose token exchange fails returns 0
    having sent nothing but the token request, and leaves the cache empty. *)
Theorem lookup_failed_exchange (net : Network) (gameName : JsVal) (st : State)
    (e : AxiosError) :
  truthy gameName = true ->
  truthy (twitchToken st) = false ->
  net PostTwitchToken = Rejected e ->
  run net (fetchLiveViewers gameName) st = (Returns 0, issue PostTwitchToken st).
Proof.
  intros Hname Hcold Hnet.
  rewrite run_fetchLiveViewers, Hname, run_getTwitchAccessToken, Hcold, Hnet.
  reflexivity.
Qed.

Lemma lookup_failed_exchange_witness :
  run (down server_error) (fetchLiveViewers (VStr "Valorant")) cold =
  (Returns 0, issue PostTwitchToken cold).
Proof.
  exact (lookup_failed_exchange (down server_error) (VStr "Valorant") cold server_error
           eq_refl eq_refl eq_refl).
Defined.

(** ** The requests of a lookup *)

(** X3: the requests of a lookup, in the order they are sent.  A lookup
    for an empty name sends nothing.  A lookup for a named game sends the
    token exchange exactly when the cache is empty; then, unless the
    exchange failed, the entity search by the exact name; then, when the
    search returns a match, the session listing for the first match.  Both
    searches carry the token of the call: the cached one when there is one,
    the one just received otherwise.  That makes three requests at most. *)
Theorem lookup_requests (net : Network) (gameName : JsVal) (st : State) :
  let searches := fun token =>
    GetTwitchGames gameName token ::
    match net (GetTwitchGames gameName token) with
    | Fulfilled (first :: _) => [GetTwitchStreams (twitch_id first) token]
    | Fulfilled [] | Rejected _ => []
    end in
  let new :=
    if truthy gameName then
      if truthy (twitchToken st) then searches (twitchToken st)
      else PostTwitchToken ::
           match net PostTwitchToken with
           | Fulfilled token => searches token
           | Rejected _ => []
           end
    else [] in
  requests (snd (run net (fetchLiveViewers gameName) st)) = rev new ++ requests st /\
  (length new <= 3)%nat.
Proof.
  cbv zeta. rewrite run_fetchLiveViewers, run_getTwitchAccessToken.
  destruct (truthy gameName); [|split; [reflexivity | simpl; lia]].
  destruct (truthy (twitchToken st)).
  - destruct (net (GetTwitchGames gameName (twitchToken st))) as [[|first others]|e];
      try (split; [reflexivity | simpl; lia]).
    destruct (net (GetTwitchStreams (twitch_id first) (twitchToken st)));
      (split; [reflexivity | simpl; lia]).
  - destruct (net PostTwitchToken) as [token|e]; [|split; [reflexivity | simpl; lia]].
    cbv zeta.
    destruct (net (GetTwitchGames gameName token)) as [[|first others]|e];
      try (split; [reflexivity | simpl; lia]).
    destruct (net (GetTwitchStreams (twitch_id first) token));
      (split; [reflexivity | simpl; lia]).
Qed.

(** A cold cache with the provider in good health, a warm cache with a
    search that finds nothing, and a failed exchange. *)
Lemma lookup_requests_witness :
  requests (snd (run (healthy [120]) (fetchLiveViewers (VStr "Valorant")) cold)) =
  [ GetTwitchStreams (VStr "516575") (VStr "tok");
    GetTwitchGames (VStr "Valorant") (VStr "tok");
    PostTwitchToken ] /\
  requests (snd (run (with_games (Fulfilled []) (healthy [120]))
                     (fetchLiveViewers (VStr "Valorant")) warm)) =
  [ GetTwitchGames (VStr "Valorant") (VStr "old") ] /\
  requests (snd (run (down no_response) (fetchLiveViewers (VStr "Valorant")) cold)) =
  [ PostTwitchToken ].
Proof.
  split; [|split].
  - exact (proj1 (lookup_requests (healthy [120]) (VStr "Valorant") cold)).
  - exact (proj1 (lookup_requests (with_games (Fulfilled []) (healthy [120]))
                                  (VStr "Valorant") warm)).
  - exact (proj1 (lookup_requests (down no_response) (VStr "Valorant") cold)).
Defined.

(** X4: of the entities the search returns only the first counts: two
    providers whose answers differ at most in the matches after the first
    give the same lookup, requests included. *)
Theorem first_match_wins (net net' : Network) (gameName : JsVal) (st : State) :
  (forall r, (forall n t, r <> GetTwitchGames n t) -> net' r = net r) ->
  (forall n t,
     match net (GetTwitchGames n t), net' (GetTwitchGames n t) with
     | Fulfilled matches, Fulfilled matches' => head matches = head matches'
     | Rejected _, Rejected _ => True
     | _, _ => False
     end) ->
  run net' (fetchLiveViewers gameName) st = run net (fetchLiveViewers gameName) st.
Proof.
  intros Hrest Hfirst.
  assert (Htoken : net' PostTwitchToken = net PostTwitchToken)
    by (apply Hrest; intros n t; discriminate).
  rewrite !run_fetchLiveViewers, !run_getTwitchAccessToken, Htoken.
  destruct (truthy gameName); [|reflexivity].
  assert (Hsearch : forall token st1,
    (let st2 := issue (GetTwitchGames gameName token) st1 in
     match net' (GetTwitchGames gameName token) with
     | Fulfilled [] => (Returns 0, st2)
     | Fulfilled (first :: _) =>
         let st3 := issue (GetTwitchStreams (twitch_id first) token) st2 in
         match net' (GetTwitchStreams (twitch_id first) token) with
         | Fulfilled streams => (Returns (sum_viewers streams), st3)
         | Rejected _ => (Returns 0, st3)
         end
     | Rejected _ => (Returns 0, st2)
     end) =
    (let st2 := issue (GetTwitchGames gameName token) st1 in
     match net (GetTwitchGames gameName token) with
     | Fulfilled [] => (Returns 0, st2)
     | Fulfilled (first :: _) =>
         let st3 := issue (GetTwitchStreams (twitch_id first) token) st2 in
         match net (GetTwitchStreams (twitch_id first) token) with
         | Fulfilled streams => (Returns (sum_viewers streams), st3)
         | Rejected _ => (Returns 0, st3)
         end
     | Rejected _ => (Returns 0, st2)
     end)).
  { intros token st1. cbv zeta. specialize (Hfirst gameName token).
    destruct (net (GetTwitchGames gameName token)) as [[|first others]|e],
             (net' (GetTwitchGames gameName token)) as [[|first' others']|e'];
      simpl in Hfirst; try discriminate; try contradiction; try reflexivity.
    injection Hfirst as <-.
    rewrite (Hrest (GetTwitchStreams (twitch_id first) token)); [reflexivity|].
    intros n t. discriminate. }
  destruct (truthy (twitchToken st)); [apply Hsearch|].
  destruct (net PostTwitchToken) as [token|e]; [apply Hsearch | reflexivity].
Qed.

Lemma first_match_wins_witness :
  run (with_games (Fulfilled [ {| twitch_id := VStr "516575" |};
                               {| twitch_id := VStr "21779" |} ]) (healthy [120; 80]))
      (fetchLiveViewers (VStr "Valorant")) cold =
  run (healthy [120; 80]) (fetchLiveViewers (VStr "Valorant")) cold.
Proof.
  apply first_match_wins.
  - intros r Hr. destruct r; try reflexivity. exfalso. exact (Hr _ _ eq_refl).
  - intros n t. reflexivity.
Defined.

(** X5: the total does not depend on the order in which the provider lists
    the sessions: two providers whose session lists are permutations of each
    other, with counts small enough for the additions to be exact, give the
    same lookup, requests included. *)
Theorem stream_order_irrelevant (net net' : Network) (gameName : JsVal) (st : State) :
  (forall r, (forall g t, r <> GetTwitchStreams g t) -> net' r = net r) ->
  (forall g t,
     match net (GetTwitchStreams g t), net' (GetTwitchStreams g t) with
     | Fulfilled streams, Fulfilled streams' =>
         Permutation streams streams' /\ exact_counts streams
     | Rejected _, Rejected _ => True
     | _, _ => False
     end) ->
  run net' (fetchLiveViewers gameName) st = run net (fetchLiveViewers gameName) st.
Proof.
  intros Hrest Hperm.
  assert (Hsum : forall streams streams' : list TwitchStream,
             Permutation streams streams' -> sum_viewers streams = sum_viewers streams').
  { intros streams streams' H. rewrite !sum_viewers_total.
    induction H; simpl; lia. }
  assert (Htoken : net' PostTwitchToken = net PostTwitchToken)
    by (apply Hrest; intros g t; discriminate).
  rewrite !run_fetchLiveViewers, !run_getTwitchAccessToken, Htoken.
  destruct (truthy gameName); [|reflexivity].
  assert (Hsearch : forall token st1,
    (let st2 := issue (GetTwitchGames gameName token) st1 in
     match net' (GetTwitchGames gameName token) with
     | Fulfilled [] => (Returns 0, st2)
     | Fulfilled (first :: _) =>
         let st3 := issue (GetTwitchStreams (twitch_id first) token) st2 in
         match net' (GetTwitchStreams (twitch_id first) token) with
         | Fulfilled streams => (Returns (sum_viewers streams), st3)
         | Rejected _ => (Returns 0, st3)
         end
     | Rejected _ => (Returns 0, st2)
     end) =
    (let st2 := issue (GetTwitchGames gameName token) st1 in
     match net (GetTwitchGames gameName token) with
     | Fulfilled [] => (Returns 0, st2)
     | Fulfilled (first :: _) =>
         let st3 := issue (GetTwitchStreams (twitch_id first) token) st2 in
         match net (GetTwitchStreams (twitch_id first) token) with
         | Fulfilled streams => (Returns (sum_viewers streams), st3)
         | Rejected _ => (Returns 0, st3)
         end
     | Rejected _ => (Returns 0, st2)
     end)).
  { intros token st1. cbv zeta.
    rewrite (Hrest (GetTwitchGames gameName token)) by (intros g t; discriminate).
    destruct (net (GetTwitchGames gameName token)) as [[|first others]|e];
      try reflexivity.
    specialize (Hperm (twitch_id first) token).
    destruct (net (GetTwitchStreams (twitch_id first) token)) as [streams|e],
             (net' (GetTwitchStreams (twitch_id first) token)) as [streams'|e'];
      try contradiction; try reflexivity.
    destruct Hperm as [Hperm _]. rewrite (Hsum _ _ Hperm). reflexivity. }
  destruct (truthy (twitchToken st)); [apply Hsearch|].
  destruct (net PostTwitchToken) as [token|e]; [apply Hsearch | reflexivity].
Qed.

Lemma stream_order_irrelevant_witness :
  run (with_streams (Fulfilled (streams_of [300; 120; 80])) (healthy [120; 80; 300]))
      (fetchLiveViewers (VStr "Valorant")) cold =
  run (healthy [120; 80; 300]) (fetchLiveViewers (VStr "Valorant")) cold.
Proof.
  apply stream_order_irrelevant.
  - intros r Hr. destruct r; try reflexivity. exfalso. exact (Hr _ _ eq_refl).
  - intros g t. simpl. split.
    + apply Permutation_sym.
      apply (Permutation_cons_app [ {| viewer_count := 120 |}; {| viewer_count := 80 |} ] []).
      apply Permutation_refl.
    + apply (exact_counts_of [120; 80; 300]). unfold max_safe_integer. simpl. lia.
Defined.

(** With a credential in the cache a lookup sends its requests with that
    credential and leaves the cache alone. *)
Lemma lookup_warm_requests (net : Network) (gameName : JsVal) (st : State) :
  truthy (twitchToken st) = true ->
  let st' := snd (run net (fetchLiveViewers gameName) st) in
  twitchToken st' = twitchToken st /\
  exists new,
    requests st' = new ++ requests st /\
    Forall (fun r => bearer r = Some (twitchToken st)) new.
Proof.
  intros Hwarm. cbv zeta. rewrite run_fetchLiveViewers, run_getTwitchAccessToken, Hwarm.
  destruct (truthy gameName); [|split; [reflexivity|exists []; split; [reflexivity|constructor]]].
  cbv zeta.
  destruct (net (GetTwitchGames gameName (twitchToken st))) as [[|first others]|e].
  - split; [reflexivity|]. eexists [_]. split; [reflexivity|]. repeat constructor.
  - destruct (net (GetTwitchStreams (twitch_id first) (twitchToken st)));
      (split; [reflexivity|]; eexists [_; _]; split; [reflexivity|]; repeat constructor).
  - split; [reflexivity|]. eexists [_]. split; [reflexivity|]. repeat constructor.
Qed.

(** X7: once a credential is cached, no sequence of lookups replaces it:
    whatever the provider answers, the cache keeps it and every request of
    every later lookup is authorised with it. *)
Theorem cached_token_never_replaced (provider : nat -> Network) (k : nat)
    (names : list JsVal) (st : State) :
  truthy (twitchToken st) = true ->
  let st' := snd (lookups provider k names st) in
  twitchToken st' = twitchToken st /\
  exists new,
    requests st' = new ++ requests st /\
    Forall (fun r => bearer r = Some (twitchToken st)) new.
Proof.
  revert k st. induction names as [|gameName rest IH]; intros k st Hwarm; simpl.
  - split; [reflexivity|]. exists []. split; [reflexivity|constructor].
  - destruct (lookup_warm_requests (provider k) gameName st Hwarm)
      as (Htok & new1 & Hreq1 & Hall1).
    destruct (run (provider k) (fetchLiveViewers gameName) st) as [o st1].
    simpl in Htok, Hreq1.
    assert (Hwarm1 : truthy (twitchToken st1) = true) by (rewrite Htok; exact Hwarm).
    destruct (IH (S k) st1 Hwarm1) as (Htok' & new2 & Hreq2 & Hall2).
    destruct (lookups provider (S k) rest st1) as [os st']. simpl in *.
    split; [congruence|]. exists (new2 ++ new1). split.
    + rewrite Hreq2, Hreq1, app_assoc. reflexivity.
    + apply Forall_app. split; [|exact Hall1].
      rewrite <- Htok. exact Hall2.
Qed.

Lemma cached_token_never_replaced_witness :
  let warm := {| twitchToken := VStr "old"; requests := [] |} in
  let st' := snd (lookups (fun _ => down server_error) 0
                          [VStr "Valorant"; VStr "Dota 2"] warm) in
  twitchToken st' = twitchToken warm /\
  exists new,
    requests st' = new ++ requests warm /\
    Forall (fun r => bearer r = Some (twitchToken warm)) new.
Proof.
  exact (cached_token_never_replaced (fun _ => down server_error) 0
           [VStr "Valorant"; VStr "Dota 2"]
           {| twitchToken := VStr "old"; requests := [] |} eq_refl).
Defined.

(** ** Token exchanges of a fan-out *)

Section NoExchange.
Context {A : Type}.

Lemma advance_no_exchange (m : Async A) (st : State) :
  no_exchange m ->
  token_fetches (snd (advance m st)) = token_fetches st /\
  task_no_exchange (fst (advance m st)).
Proof.
  revert st. induction m as [a|e|k IH|v k IH|r k IH|k IH]; intros st Hm; simpl in *.
  - auto.
  - auto.
  - apply IH, Hm.
  - destruct (IH (set_token v st) Hm) as [Hn Ht]. auto.
  - destruct Hm as [Hr Hk]. split; [|exact Hk].
    rewrite token_fetches_issue. destruct r; congruence.
  - auto.
Qed.

Lemma run_no_exchange (net : Network) (m : Async A) (st : State) :
  no_exchange m -> token_fetches (snd (run net m st)) = token_fetches st.
Proof.
  revert st. induction m as [a|e|k IH|v k IH|r k IH|k IH]; intros st Hm; simpl in *.
  - reflexivity.
  - reflexivity.
  - apply IH, Hm.
  - rewrite (IH (set_token v st) Hm). reflexivity.
  - destruct Hm as [Hr Hk]. rewrite (IH _ (issue r st) (Hk _)).
    rewrite token_fetches_issue. destruct r; congruence.
  - apply IH, Hm.
Qed.

Lemma resume_no_exchange (net : Network) (t : Task A) (st : State) :
  task_no_exchange t ->
  token_fetches (snd (resume net t st)) = token_fetches st /\
  task_no_exchange (fst (resume net t st)).
Proof.
  destruct t as [o|r k|k]; simpl; intros Ht.
  - auto.
  - apply advance_no_exchange, Ht.
  - apply advance_no_exchange, Ht.
Qed.

Lemma finish_no_exchange (net : Network) (t : Task A) (st : State) :
  task_no_exchange t -> token_fetches (snd (finish net t st)) = token_fetches st.
Proof.
  destruct t as [o|r k|k]; simpl; intros Ht.
  - reflexivity.
  - apply run_no_exchange, Ht.
  - apply run_no_exchange, Ht.
Qed.

Lemma deliver_no_exchange (provider : nat -> Network) (p : Pool A) (i : nat) :
  Forall task_no_exchange (tasks p) ->
  Forall task_no_exchange (tasks (deliver provider p i)) /\
  token_fetches (pool_state (deliver provider p i)) = token_fetches (pool_state p).
Proof.
  intros Hall. unfold deliver.
  destruct (tasks p !! i) as [t|] eqn:Ht; [|auto].
  pose proof (Forall_lookup_1 _ _ _ _ Hall Ht) as Hquiet.
  pose proof (resume_no_exchange (provider i) t (pool_state p) Hquiet) as [Hn Ht'].
  destruct t as [o|r k|k]; [auto| |];
    destruct (resume (provider i) _ (pool_state p)) as [t' st'];
    simpl in *; (split; [apply Forall_insert; assumption | exact Hn]).
Qed.

Lemma arrivals_no_exchange (provider : nat -> Network) (arrivals : list nat) (p : Pool A) :
  Forall task_no_exchange (tasks p) ->
  let p' := fold_left (deliver provider) arrivals p in
  Forall task_no_exchange (tasks p') /\
  token_fetches (pool_state p') = token_fetches (pool_state p).
Proof.
  revert p. induction arrivals as [|i arrivals IH]; intros p Hall; simpl; [auto|].
  destruct (deliver_no_exchange provider p i Hall) as [Hall' Hn].
  destruct (IH _ Hall') as [Hall'' Hn']. split; [exact Hall''|congruence].
Qed.

Lemma drain_no_exchange (provider : nat -> Network) (ts : list (Task A)) :
  forall (i : nat) (rej : option Exn) (st : State),
    Forall task_no_exchange ts ->
    token_fetches (snd (drain provider i ts rej st)) = token_fetches st.
Proof.
  induction ts as [|t ts IH]; intros i rej st Hall; simpl; [reflexivity|].
  inversion Hall as [|t' ts' Ht Hts]; subst.
  pose proof (finish_no_exchange (provider i) t st Ht) as Hn.
  destruct (finish (provider i) t st) as [o st1]. simpl in Hn.
  specialize (IH (S i) (note_rejection (Settled o) rej) st1 Hts).
  destruct (drain provider (S i) ts (note_rejection (Settled o) rej) st1) as [[os rej'] st'].
  simpl in *. congruence.
Qed.

End NoExchange.

(** The callback of [games.map] sends its token exchange, if any, before it
    first suspends. *)
Lemma start_trendingEntry (game : RawgGame) (st : State) :
  task_no_exchange (fst (advance (trendingEntry game) st)) /\
  token_fetches (snd (advance (trendingEntry game) st)) =
  (token_fetches st +
   if truthy (twitchToken st) then 0 else if truthy (game_name game) then 1 else 0)%nat.
Proof.
  unfold trendingEntry, fetchLiveViewers, getTwitchAccessToken.
  destruct (truthy (game_name game)); simpl.
  - destruct (truthy (twitchToken st)); simpl.
    + split; [|lia]. split; [discriminate|].
      intros [[|first others]|e]; simpl; auto.
      split; [discriminate|]. intros [streams|e]; simpl; auto.
    + split; [|rewrite token_fetches_issue; lia].
      intros [token|e]; simpl.
      * split; [discriminate|].
        intros [[|first others]|e]; simpl; auto.
        split; [discriminate|]. intros [streams|e]; simpl; auto.
      * destruct (response e); simpl; auto.
  - split; [exact I|]. destruct (truthy (twitchToken st)); lia.
Qed.

Lemma start_all_trending (games : list RawgGame) :
  forall (rej : option Exn) (st : State),
    let p := start_all (map trendingEntry games) rej st in
    Forall task_no_exchange (tasks p) /\
    token_fetches (pool_state p) =
    (token_fetches st + if truthy (twitchToken st) then 0 else length (named games))%nat.
Proof.
  induction games as [|game games IH]; intros rej st; cbv zeta.
  - simpl. split; [constructor|]. destruct (truthy (twitchToken st)); lia.
  - cbn [map start_all].
    destruct (start_trendingEntry game st) as [Hquiet Hn].
    pose proof (quiet_start_trendingEntry game st) as Htok.
    destruct (advance (trendingEntry game) st) as [t st1]. simpl in Hquiet, Hn, Htok.
    destruct (IH (note_rejection t rej) st1) as [Hall Hn']. simpl.
    split; [constructor; assumption|].
    rewrite Hn', Hn, Htok. unfold named. simpl.
    destruct (truthy (twitchToken st)); [lia|].
    destruct (truthy (game_name game)); simpl; lia.
Qed.

(** X6: the fan-out of [fetchTrendingGames] does not share the token
    exchange: when the cache is empty every game with a name exchanges a
    token of its own, whatever the order of arrival of the replies and
    whether or not the exchanges succeed; when a credential is cached none
    does. *)
Theorem fanout_exchanges_per_game (rawg : Network) (twitch : nat -> Network)
    (arrivals : list nat) (st : State) (games : list RawgGame) :
  rawg (GetRawgGames "-added" 5) = Fulfilled games ->
  token_fetches (snd (fetchTrendingGames rawg twitch arrivals st)) =
  (token_fetches st +
   if truthy (twitchToken st) then 0 else length (named games))%nat.
Proof.
  intros Hnet. unfold fetchTrendingGames, await_axios. simpl. rewrite Hnet. simpl.
  unfold promise_all.
  set (st1 := issue (GetRawgGames "-added" 5) st).
  destruct (start_all_trending games None st1) as [Hall Hn].
  destruct (arrivals_no_exchange twitch arrivals _ Hall) as [Hall' Hn'].
  pose proof (drain_no_exchange twitch _ 0%nat
                (rejection (fold_left (deliver twitch) arrivals
                                      (start_all (map trendingEntry games) None st1)))
                (pool_state (fold_left (deliver twitch) arrivals
                                       (start_all (map trendingEntry games) None st1)))
                Hall') as Hd.
  destruct (drain twitch 0%nat _ _ _) as [[os rej] st'].
  simpl in Hd.
  assert (Hst' : token_fetches st' = (token_fetches st +
             if truthy (twitchToken st) then 0 else length (named games))%nat).
  { rewrite Hd, Hn', Hn. reflexivity. }
  destruct rej; exact Hst'.
Qed.

Lemma fanout_exchanges_per_game_witness :
  token_fetches (snd (fetchTrendingGames (healthy []) flaky [1; 0; 1; 0; 0]%nat cold)) =
  (token_fetches cold +
   if truthy (twitchToken cold) then 0
   else length (named [ game_with 1 "Alpha" ["Action"; "RPG"];
                        game_with 2 "Beta" ["Action"] ]))%nat.
Proof.
  exact (fanout_exchanges_per_game (healthy []) flaky [1; 0; 1; 0; 0]%nat cold _ eq_refl).
Defined.

(** ** Genre trends, once more *)

Lemma mem_In (l : string) (ks : list string) : mem l ks = true <-> In l ks.
Proof.
  unfold mem. rewrite existsb_exists. split.
  - intros (x & Hx & E). apply String.eqb_eq in E. subst. exact Hx.
  - intros H. exists l. split; [exact H | apply String.eqb_refl].
Qed.

Lemma keys_count_genre (c : list (string * Z)) (g : Genre) :
  map fst (count_genre c g) =
  if mem (genre_name g) (map fst c) then map fst c else map fst c ++ [genre_name g].
Proof.
  unfold count_genre.
  pose proof (get_count_None (genre_name g) c) as Hnone.
  pose proof (mem_In (genre_name g) (map fst c)) as Hmem.
  destruct (get_count (genre_name g) c) as [n|] eqn:Hg.
  - assert (Hin : mem (genre_name g) (map fst c) = true).
    { destruct (mem (genre_name g) (map fst c)); [reflexivity|].
      assert (Hnot : ~ In (genre_name g) (map fst c))
        by (intros H; apply Hmem in H; discriminate).
      apply Hnone in Hnot. discriminate. }
    rewrite Hin. destruct (truthy (VNum n)); rewrite keys_set_count, Hg; reflexivity.
  - assert (Hout : mem (genre_name g) (map fst c) = false).
    { destruct (mem (genre_name g) (map fst c)); [|reflexivity].
      exfalso. apply (proj1 Hnone eq_refl). apply Hmem. reflexivity. }
    rewrite Hout, keys_set_count, Hg. reflexivity.
Qed.

Lemma filter_filter {X : Type} (p q : X -> bool) (l : list X) :
  List.filter p (List.filter q l) = List.filter (fun x => q x && p x) l.
Proof.
  induction l as [|x l IH]; simpl; [reflexivity|].
  destruct (q x); simpl; [destruct (p x)|]; rewrite IH; reflexivity.
Qed.

(** The keys of the tally grow in the order the labels are first seen. *)
Lemma keys_fold (gs : list Genre) :
  forall c : list (string * Z),
    map fst (fold_left count_genre gs c) =
    map fst c ++ List.filter (fun l => negb (mem l (map fst c)))
                             (first_seen (map genre_name gs)).
Proof.
  induction gs as [|g gs IH]; intros c; simpl.
  - rewrite app_nil_r. reflexivity.
  - rewrite IH, keys_count_genre.
    destruct (mem (genre_name g) (map fst c)) eqn:Hm; simpl.
    + f_equal. rewrite filter_filter. apply filter_ext. intros l.
      destruct (String.eqb l (genre_name g)) eqn:E; simpl; [|reflexivity].
      apply String.eqb_eq in E. subst l. rewrite Hm. reflexivity.
    + rewrite <- app_assoc. simpl. f_equal. f_equal.
      rewrite filter_filter. apply filter_ext. intros l.
      unfold mem. rewrite existsb_app. simpl. rewrite orb_false_r, negb_orb.
      apply andb_comm.
Qed.

(** X9: for genre names as RAWG writes them (beginning with a capital
    letter), the entries of [fetchGenreTrends] come in the order in which
    their labels first occur in the batch. *)
Theorem genre_order_first_seen (rawg : Network) (st : State) (games : list RawgGame) :
  rawg (GetRawgGames "-added" 50) = Fulfilled games ->
  let labels := map genre_name (flat_map genres games) in
  Forall (fun l => genre_like l = true) labels ->
  exists out,
    fst (run rawg fetchGenreTrends st) = Returns out /\
    map GenreStat.label out = first_seen labels.
Proof.
  intros Hnet labels Hlike. exists (formatGenres (count_genres games)). split.
  - unfold fetchGenreTrends, await_axios. simpl. rewrite Hnet. simpl.
    rewrite (formattedGenres_tally games Hlike). reflexivity.
  - unfold formatGenres. rewrite map_map. simpl. rewrite map_id.
    unfold count_genres. rewrite count_genres_flat, keys_fold. cbn [map app].
    rewrite (filter_ext _ (fun _ => true)) by reflexivity. apply filter_true.
Qed.

Lemma genre_order_first_seen_witness :
  exists out,
    fst (run (healthy []) fetchGenreTrends cold) = Returns out /\
    map GenreStat.label out = first_seen ["Action"; "RPG"; "Action"].
Proof.
  apply (genre_order_first_seen (healthy []) cold
           [ game_with 1 "Alpha" ["Action"; "RPG"]; game_with 2 "Beta" ["Action"] ]).
  - reflexivity.
  - repeat constructor.
Defined.

Lemma sum_set_count (l : string) (v : Z) (c : list (string * Z)) :
  fold_right Z.add 0 (map snd (set_count l v c)) =
  fold_right Z.add 0 (map snd c) + v -
  match get_count l c with Some old => old | None => 0 end.
Proof.
  induction c as [|[k x] c IH]; simpl; [lia|].
  destruct (String.eqb k l); simpl; [lia|]. rewrite IH. lia.
Qed.

(** Each occurrence of a label adds one to the sum of the counts. *)
Lemma sum_count_genre (c : list (string * Z)) (g : Genre) :
  fold_right Z.add 0 (map snd (count_genre c g)) = fold_right Z.add 0 (map snd c) + 1.
Proof.
  unfold count_genre. destruct (get_count (genre_name g) c) as [n|] eqn:Hg.
  - simpl. destruct (n =? 0) eqn:E; simpl; rewrite sum_set_count, Hg.
    + apply Z.eqb_eq in E. lia.
    + lia.
  - rewrite sum_set_count, Hg. lia.
Qed.

Lemma sum_count_genres (gs : list Genre) :
  forall c : list (string * Z),
    fold_right Z.add 0 (map snd (fold_left count_genre gs c)) =
    fold_right Z.add 0 (map snd c) + Z.of_nat (length gs).
Proof.
  induction gs as [|g gs IH]; intros c; simpl fold_left.
  - simpl. lia.
  - rewrite IH, sum_count_genre. simpl length. lia.
Qed.

Lemma get_count_own (c : list (string * Z)) (k : string) (v : Z) :
  List.NoDup (map fst c) -> In (k, v) c -> get_count k c = Some v.
Proof.
  induction c as [|[k' v'] c IH]; simpl; intros Hnd Hin; [contradiction|].
  inversion Hnd as [|x xs Hnot Hnd']; subst.
  destruct Hin as [[= -> ->]|Hin].
  - rewrite String.eqb_refl. reflexivity.
  - destruct (String.eqb k' k) eqn:E.
    + apply String.eqb_eq in E. subst k'. exfalso. apply Hnot.
      apply in_map_iff. exists (k, v). auto.
    + apply IH; assumption.
Qed.

Lemma formatGenres_values (c : list (string * Z)) :
  List.NoDup (map fst c) ->
  map GenreStat.value (formatGenres c) = map (fun kv => VNum (snd kv)) c.
Proof.
  intros Hnd. unfold formatGenres. rewrite !map_map. simpl.
  apply map_ext_in. intros [k v] Hin. simpl.
  rewrite (get_count_own c k v Hnd Hin). reflexivity.
Qed.

(** X8: for genre names as RAWG writes them (beginning with a capital
    letter), the counts of [fetchGenreTrends] add up to the number of genre
    occurrences in the batch (a game with k genres adds k), and every entry
    counts at least one occurrence. *)
Theorem genre_counts_add_up (rawg : Network) (st : State) (games : list RawgGame) :
  rawg (GetRawgGames "-added" 50) = Fulfilled games ->
  let labels := map genre_name (flat_map genres games) in
  Forall (fun l => genre_like l = true) labels ->
  exists out,
    fst (run rawg fetchGenreTrends st) = Returns out /\
    fold_right Z.add 0 (map (fun e => number_of (GenreStat.value e)) out) =
    Z.of_nat (length labels) /\
    Forall (fun e => exists n, GenreStat.value e = VNum n /\ 1 <= n) out.
Proof.
  intros Hnet labels Hlike. exists (formatGenres (count_genres games)).
  destruct (count_genres_exact games) as [Hnd Hc]. fold labels in Hc.
  split; [|split].
  - unfold fetchGenreTrends, await_axios. simpl. rewrite Hnet. simpl.
    rewrite (formattedGenres_tally games Hlike). reflexivity.
  - rewrite <- (map_map GenreStat.value number_of), (formatGenres_values _ Hnd).
    rewrite map_map. simpl.
    change (map (fun kv : string * Z => snd kv) (count_genres games))
      with (map snd (count_genres games)).
    unfold count_genres. rewrite count_genres_flat, sum_count_genres. simpl.
    unfold labels. rewrite length_map. reflexivity.
  - apply Forall_forall. intros e He. apply list_elem_of_In in He.
    unfold formatGenres in He. apply in_map_iff in He. destruct He as (l & <- & Hl).
    simpl. rewrite Hc.
    pose proof (proj1 (get_count_None l (count_genres games))) as Hnone.
    rewrite Hc in Hnone.
    destruct (count_occ string_dec labels l) as [|n]; simpl in *.
    + exfalso. apply (Hnone eq_refl). exact Hl.
    + eexists. split; [reflexivity|]. lia.
Qed.

Lemma genre_counts_add_up_witness :
  exists out,
    fst (run (healthy []) fetchGenreTrends cold) = Returns out /\
    fold_right Z.add 0 (map (fun e => number_of (GenreStat.value e)) out) = 3 /\
    Forall (fun e => exists n, GenreStat.value e = VNum n /\ 1 <= n) out.
Proof.
  apply (genre_counts_add_up (healthy []) cold
           [ game_with 1 "Alpha" ["Action"; "RPG"]; game_with 2 "Beta" ["Action"] ]).
  - reflexivity.
  - repeat constructor.
Defined.

Lemma lower_ascii_not_upper (c : ascii) : is_upper (lower_ascii c) = false.
Proof.
  unfold lower_ascii, is_upper.
  destruct ((65 <=? nat_of_ascii c)%nat && (nat_of_ascii c <=? 90)%nat) eqn:E.
  - apply andb_true_iff in E. destruct E as [E1 E2].
    apply Nat.leb_le in E1, E2.
    rewrite nat_ascii_embedding by lia.
    apply andb_false_iff. right. apply Nat.leb_gt. lia.
  - exact E.
Qed.

Lemma toLowerCase_no_upper (s : string) :
  Forall (fun c => is_upper c = false) (list_ascii_of_string (toLowerCase s)).
Proof.
  induction s as [|c s IH]; simpl; constructor; [apply lower_ascii_not_upper | exact IH].
Qed.

Lemma toLowerCase_length (s : string) : String.length (toLowerCase s) = String.length s.
Proof. induction s as [|c s IH]; simpl; congruence. Qed.

Lemma replace_length (p r : ascii) (s : string) :
  String.length (replace p r s) = String.length s.
Proof.
  induction s as [|c s IH]; simpl; [reflexivity|].
  destruct (Ascii.eqb c p); simpl; congruence.
Qed.

Lemma replace_no_upper (p r : ascii) (s : string) :
  is_upper r = false ->
  Forall (fun c => is_upper c = false) (list_ascii_of_string s) ->
  Forall (fun c => is_upper c = false) (list_ascii_of_string (replace p r s)).
Proof.
  intros Hr. induction s as [|c s IH]; simpl; intros Hs; [constructor|].
  inversion Hs as [|c' s' Hc Hs']; subst.
  destruct (Ascii.eqb c p); simpl; constructor; auto.
Qed.

(** X10: for labels written in ASCII, the [id] of an entry of
    [fetchGenreTrends] has the length of its label and no capital letter. *)
Theorem genre_id_lower_case (rawg : Network) (st : State) (games : list RawgGame) :
  rawg (GetRawgGames "-added" 50) = Fulfilled games ->
  Forall (fun l => ascii_text l = true) (map genre_name (flat_map genres games)) ->
  exists out,
    fst (run rawg fetchGenreTrends st) = Returns out /\
    Forall (fun e =>
              String.length (GenreStat.id e) = String.length (GenreStat.label e) /\
              Forall (fun c => is_upper c = false)
                     (list_ascii_of_string (GenreStat.id e)))
           out.
Proof.
  intros Hnet _. exists (formattedGenres (genreCounts games)). split.
  - unfold fetchGenreTrends, await_axios. simpl. rewrite Hnet. reflexivity.
  - apply Forall_forall. intros e He. apply list_elem_of_In in He.
    unfold formattedGenres in He. apply in_map_iff in He. destruct He as (l & <- & _).
    simpl. split.
    + rewrite replace_length, toLowerCase_length. reflexivity.
    + apply replace_no_upper; [reflexivity | apply toLowerCase_no_upper].
Qed.

Lemma genre_id_lower_case_witness :
  exists out,
    fst (run (healthy []) fetchGenreTrends cold) = Returns out /\
    Forall (fun e =>
              String.length (GenreStat.id e) = String.length (GenreStat.label e) /\
              Forall (fun c => is_upper c = false)
                     (list_ascii_of_string (GenreStat.id e)))
           out.
Proof.
  apply (genre_id_lower_case (healthy []) cold
           [ game_with 1 "Alpha" ["Action"; "RPG"]; game_with 2 "Beta" ["Action"] ]).
  - reflexivity.
  - repeat constructor.
Defined.

(** * Properties of the dashboard *)

(** X11: [formatViewers] leaves a count up to 999 as it is; a larger count
    (up to 2^53 - 1) is shown as a number of thousands followed by "k", the
    thousands being the count divided by 1000 and rounded to the nearest
    integer, halves upwards, so never "0k". *)
Theorem formatViewers_rounds (num : Z) :
  num <= max_safe_integer ->
  (num <= 999 -> formatViewers num = VNum num) /\
  (999 < num ->
   exists k,
     formatViewers num = VStr (decimal k ++ "k") /\
     1 <= k /\
     num - 500 < 1000 * k <= num + 500).
Proof.
  intros _. unfold formatViewers. split; intros H.
  - destruct (999 <? num) eqn:E; [apply Z.ltb_lt in E; lia | reflexivity].
  - apply Z.ltb_lt in H. rewrite H. exists ((num + 500) / 1000).
    split; [reflexivity|].
    apply Z.ltb_lt in H.
    pose proof (Z.div_mod (num + 500) 1000 ltac:(lia)) as Hdiv.
    pose proof (Z.mod_pos_bound (num + 500) 1000 ltac:(lia)) as Hmod.
    lia.
Qed.

Lemma formatViewers_rounds_witness :
  (327000 <= 999 -> formatViewers 327000 = VNum 327000) /\
  (999 < 327000 ->
   exists k,
     formatViewers 327000 = VStr (decimal k ++ "k") /\
     1 <= k /\
     327000 - 500 < 1000 * k <= 327000 + 500).
Proof. apply (formatViewers_rounds 327000). unfold max_safe_integer. lia. Defined.

(** The examples of the source, and the edges. *)
Example formatViewers_examples :
  formatViewers 327000 = VStr "327k" /\
  formatViewers 999 = VNum 999 /\
  formatViewers 1000 = VStr "1k" /\
  formatViewers 1499 = VStr "1k" /\
  formatViewers 1500 = VStr "2k" /\
  formatViewers 999999 = VStr "1000k" /\
  formatViewers 0 = VNum 0.
Proof. repeat split; reflexivity. Qed.

(** X12: after [fetchAllData], from a state without error: when all three
    requests were fulfilled [App] shows the three cards, also when the
    arrays are empty; otherwise it shows the error message, and none of the
    data of that load is kept, not even that of the requests that were
    fulfilled. *)
Theorem load_all_or_nothing (trendingRes : Reply (list LiveRecord.t))
    (genreRes : Reply (list GenreStat.t)) (platformRes : Reply (list PlatformStat.t))
    (st : Dashboard.State) :
  truthy (Dashboard.error st) = false ->
  let st' := fetchAllData trendingRes genreRes platformRes st in
  App st' =
  match trendingRes, genreRes, platformRes with
  | Fulfilled trending, Fulfilled genre, Fulfilled platform =>
      DashboardView (TrendingGamesCard trending) (GenreStatsCard genre)
                    (PlatformChartCard platform)
  | _, _, _ => ErrorView (VStr load_failed)
  end /\
  (is_rejected trendingRes || is_rejected genreRes || is_rejected platformRes = true ->
   Dashboard.trendingData st' = Dashboard.trendingData st /\
   Dashboard.genreData st' = Dashboard.genreData st /\
   Dashboard.platformData st' = Dashboard.platformData st).
Proof.
  intros Hok. cbv zeta. unfold App.
  destruct trendingRes, genreRes, platformRes; simpl; rewrite ?Hok;
    (split; [reflexivity|]); try discriminate; intros _; repeat split.
Qed.

Lemma load_all_or_nothing_witness :
  let st' := fetchAllData (Fulfilled []) (Rejected no_response) (Fulfilled []) initial in
  App st' = ErrorView (VStr load_failed) /\
  (is_rejected (Fulfilled (A := list LiveRecord.t) []) ||
   is_rejected (Rejected (A := list GenreStat.t) no_response) ||
   is_rejected (Fulfilled (A := list PlatformStat.t) []) = true ->
   Dashboard.trendingData st' = Dashboard.trendingData initial /\
   Dashboard.genreData st' = Dashboard.genreData initial /\
   Dashboard.platformData st' = Dashboard.platformData initial).
Proof.
  exact (load_all_or_nothing (Fulfilled []) (Rejected no_response) (Fulfilled [])
           initial eq_refl).
Defined.

(** X13: the error is never cleared: once [error] is set, [App] shows an
    error message after every later [fetchAllData], also one whose three
    requests are fulfilled. *)
Theorem error_is_sticky (trendingRes : Reply (list LiveRecord.t))
    (genreRes : Reply (list GenreStat.t)) (platformRes : Reply (list PlatformStat.t))
    (st : Dashboard.State) :
  truthy (Dashboard.error st) = true ->
  exists message,
    App (fetchAllData trendingRes genreRes platformRes st) = ErrorView message /\
    truthy message = true.
Proof.
  intros Herr. unfold App.
  destruct trendingRes, genreRes, platformRes; simpl; rewrite ?Herr; eauto.
Qed.

Lemma error_is_sticky_witness :
  exists message,
    App (fetchAllData (Fulfilled []) (Fulfilled []) (Fulfilled [])
           (fetchAllData (Fulfilled []) (Rejected no_response) (Fulfilled []) initial)) =
    ErrorView message /\
    truthy message = true.
Proof.
  exact (error_is_sticky (Fulfilled []) (Fulfilled []) (Fulfilled [])
           (fetchAllData (Fulfilled []) (Rejected no_response) (Fulfilled []) initial)
           eq_refl).
Defined.

Lemma to_int_not_nil (n : Z) :
  Z.to_int n <> Decimal.Pos Decimal.Nil /\ Z.to_int n <> Decimal.Neg Decimal.Nil.
Proof.
  pose proof (DecimalZ.to_of (Z.to_int n)) as H. rewrite DecimalZ.of_to in H.
  split; intros E; rewrite E in H; discriminate H.
Qed.

(** Different integers are written differently. *)
Lemma decimal_inj (n m : Z) : decimal n = decimal m -> n = m.
Proof.
  unfold decimal. intros H.
  destruct (to_int_not_nil n) as [Hn1 Hn2], (to_int_not_nil m) as [Hm1 Hm2].
  pose proof (NilZero.isi (Z.to_int n) Hn1 Hn2) as Hn.
  pose proof (NilZero.isi (Z.to_int m) Hm1 Hm2) as Hm.
  rewrite H, Hm in Hn. injection Hn as Hn. symmetry. apply DecimalZ.to_int_inj, Hn.
Qed.

(** X14: [TrendingGamesCard] lists one item per record, in the order of the
    data.  The key of an item is the record's id as a string: an integer id
    in decimal, a string id as it is; so records with different integer ids
    get different keys.  The image of an item is the record's image when it
    has one and the placeholder otherwise, so never an empty source, and the
    viewers are shown through [formatViewers]. *)
Theorem trending_rows (data : list LiveRecord.t) :
  length (TrendingGamesCard data) = length data /\
  (forall (i : nat) (game : LiveRecord.t),
     data !! i = Some game ->
     exists row,
       TrendingGamesCard data !! i = Some row /\
       (forall n, LiveRecord.id game = VNum n -> Z.abs n <= max_safe_integer ->
                  row_key row = Some (decimal n)) /\
       (forall s, LiveRecord.id game = VStr s -> row_key row = Some s) /\
       row_name row = LiveRecord.name game /\
       row_viewers row = formatViewers (LiveRecord.liveViewers game) /\
       truthy (img_src row) = true /\
       (truthy (LiveRecord.image game) = true -> img_src row = LiveRecord.image game) /\
       (truthy (LiveRecord.image game) = false -> img_src row = placeholder)) /\
  (forall (i j : nat) (row row' : GameRow) (game game' : LiveRecord.t) (n m : Z),
     data !! i = Some game -> data !! j = Some game' ->
     LiveRecord.id game = VNum n -> LiveRecord.id game' = VNum m ->
     Z.abs n <= max_safe_integer -> Z.abs m <= max_safe_integer -> n <> m ->
     TrendingGamesCard data !! i = Some row ->
     TrendingGamesCard data !! j = Some row' ->
     row_key row <> row_key row').
Proof.
  unfold TrendingGamesCard. split; [apply length_map|]. split.
  - intros i game Hi. rewrite lookup_map, Hi. simpl. eexists. split; [reflexivity|].
    simpl. split; [intros n -> _; reflexivity|]. split; [intros s ->; reflexivity|].
    unfold js_or. destruct (truthy (LiveRecord.image game)) eqn:E;
      repeat split; auto; discriminate.
  - intros i j row row' game game' n m Hi Hj Hn Hm _ _ Hnm.
    rewrite !lookup_map, ?Hi, ?Hj. simpl. intros [= <-] [= <-]. simpl.
    rewrite Hn, Hm. simpl. intros [= E]. apply Hnm, decimal_inj, E.
Qed.

Lemma trending_rows_witness :
  exists row,
    TrendingGamesCard [ record_of (game_with 1 "Alpha" ["Action"]) 327000 ] !! 0%nat
    = Some row /\
    row_key row = Some "1" /\
    row_viewers row = VStr "327k" /\
    img_src row = placeholder.
Proof.
  destruct (trending_rows [ record_of (game_with 1 "Alpha" ["Action"]) 327000 ])
    as (_ & H & _).
  destruct (H 0%nat _ eq_refl) as (row & Hrow & Hk & _ & _ & Hv & _ & _ & Hp).
  exists row. split; [exact Hrow|]. split; [|split; [exact Hv | exact (Hp eq_refl)]].
  apply (Hk 1 eq_refl). unfold max_safe_integer. simpl. lia.
Defined.

(** * The cache after a fan-out *)

Section KeepsWarm.
Context {A : Type} (net : Network).

Lemma advance_keeps_warm (m : Async A) (st : State) :
  keeps_warm net m ->
  (truthy (twitchToken st) = true -> truthy (twitchToken (snd (advance m st))) = true) /\
  task_keeps_warm net (fst (advance m st)).
Proof.
  revert st. induction m as [a|e|k IH|v k IH|r k IH|k IH]; intros st Hm; simpl in *.
  - auto.
  - auto.
  - apply IH, Hm.
  - destruct Hm as [Hv Hk]. destruct (IH (set_token v st) Hk) as [Hw Ht].
    split; [intros _; apply Hw; exact Hv | exact Ht].
  - auto.
  - auto.
Qed.

Lemma run_keeps_warm (m : Async A) (st : State) :
  keeps_warm net m ->
  truthy (twitchToken st) = true ->
  truthy (twitchToken (snd (run net m st))) = true.
Proof.
  revert st. induction m as [a|e|k IH|v k IH|r k IH|k IH]; intros st Hm Hw; simpl in *.
  - exact Hw.
  - exact Hw.
  - apply IH; [apply Hm | exact Hw].
  - destruct Hm as [Hv Hk]. apply IH; [exact Hk | exact Hv].
  - apply IH; [exact Hm | exact Hw].
  - apply IH; [exact Hm | exact Hw].
Qed.

Lemma run_advance (m : Async A) (st : State) :
  run net m st = finish net (fst (advance m st)) (snd (advance m st)).
Proof.
  revert st. induction m as [a|e|k IH|v k IH|r k IH|k IH]; intros st; simpl; auto.
Qed.

Lemma resume_keeps_warm (t : Task A) (st : State) :
  task_keeps_warm net t ->
  (truthy (twitchToken st) = true ->
   truthy (twitchToken (snd (resume net t st))) = true) /\
  task_keeps_warm net (fst (resume net t st)).
Proof.
  destruct t as [o|r k|k]; simpl; intros Ht.
  - auto.
  - apply advance_keeps_warm, Ht.
  - apply advance_keeps_warm, Ht.
Qed.

Lemma finish_keeps_warm (t : Task A) (st : State) :
  task_keeps_warm net t ->
  truthy (twitchToken st) = true ->
  truthy (twitchToken (snd (finish net t st))) = true.
Proof.
  destruct t as [o|r k|k]; simpl; intros Ht Hw.
  - exact Hw.
  - apply run_keeps_warm; assumption.
  - apply run_keeps_warm; assumption.
Qed.

Lemma resume_warms (t : Task A) (st : State) :
  task_warms net t -> truthy (twitchToken (snd (resume net t st))) = true.
Proof. destruct t as [o|r k|k]; simpl; intros Ht; [contradiction|apply Ht|contradiction]. Qed.

Lemma finish_warms (t : Task A) (st : State) :
  task_keeps_warm net t -> task_warms net t ->
  truthy (twitchToken (snd (finish net t st))) = true.
Proof.
  destruct t as [o|r k|k]; simpl; intros Hk Ht; try contradiction.
  rewrite run_advance. apply finish_keeps_warm.
  - apply advance_keeps_warm, Hk.
  - apply Ht.
Qed.

End KeepsWarm.

Section WarmPool.
Context {A : Type} (provider : nat -> Network).

(** Either the cache holds a credential or a task is about to put one. *)
Lemma deliver_warm (p : Pool A) (i : nat) :
  (forall j t, tasks p !! j = Some t -> task_keeps_warm (provider j) t) ->
  (truthy (twitchToken (pool_state p)) = true \/
   exists j t, tasks p !! j = Some t /\ task_warms (provider j) t) ->
  let p' := deliver provider p i in
  (forall j t, tasks p' !! j = Some t -> task_keeps_warm (provider j) t) /\
  (truthy (twitchToken (pool_state p')) = true \/
   exists j t, tasks p' !! j = Some t /\ task_warms (provider j) t).
Proof.
  intros Hkeep Hwarm. cbv zeta. unfold deliver.
  destruct (tasks p !! i) as [t|] eqn:Ht; [|auto].
  pose proof (resume_keeps_warm (provider i) t (pool_state p) (Hkeep i t Ht)) as [Hw Hk].
  assert (Hstep : forall t' st',
             resume (provider i) t (pool_state p) = (t', st') ->
             (forall j t2, <[i:=t']> (tasks p) !! j = Some t2 ->
                           task_keeps_warm (provider j) t2) /\
             (truthy (twitchToken st') = true \/
              exists j t2, <[i:=t']> (tasks p) !! j = Some t2 /\
                           task_warms (provider j) t2)).
  { intros t' st' Hres. rewrite Hres in Hw, Hk. simpl in Hw, Hk. split.
    - intros j t2 Hj. apply list_lookup_insert_Some in Hj.
      destruct Hj as [(<- & <- & _)|[Hne Hj]]; [exact Hk | apply (Hkeep j), Hj].
    - destruct Hwarm as [Hwarm|(j & t2 & Hj & Hwarms)]; [left; auto|].
      destruct (decide (i = j)) as [<-|Hne].
      + left. rewrite Ht in Hj. injection Hj as <-.
        pose proof (resume_warms (provider i) t (pool_state p) Hwarms) as H.
        rewrite Hres in H. exact H.
      + right. exists j, t2. split; [|exact Hwarms].
        rewrite list_lookup_insert_ne by exact Hne. exact Hj. }
  destruct t as [o|r k|k].
  - auto.
  - destruct (resume (provider i) (AwaitingReply r k) (pool_state p)) as [t' st'] eqn:E.
    apply (Hstep t' st'). reflexivity.
  - destruct (resume (provider i) (AwaitingTick k) (pool_state p)) as [t' st'] eqn:E.
    apply (Hstep t' st'). reflexivity.
Qed.

Lemma arrivals_warm (arrivals : list nat) (p : Pool A) :
  (forall j t, tasks p !! j = Some t -> task_keeps_warm (provider j) t) ->
  (truthy (twitchToken (pool_state p)) = true \/
   exists j t, tasks p !! j = Some t /\ task_warms (provider j) t) ->
  let p' := fold_left (deliver provider) arrivals p in
  (forall j t, tasks p' !! j = Some t -> task_keeps_warm (provider j) t) /\
  (truthy (twitchToken (pool_state p')) = true \/
   exists j t, tasks p' !! j = Some t /\ task_warms (provider j) t).
Proof.
  revert p. induction arrivals as [|i arrivals IH]; intros p Hkeep Hwarm; simpl; [auto|].
  destruct (deliver_warm p i Hkeep Hwarm) as [Hkeep' Hwarm'].
  apply IH; assumption.
Qed.

Lemma drain_warm (ts : list (Task A)) :
  forall (i : nat) (rej : option Exn) (st : State),
    (forall j t, ts !! j = Some t -> task_keeps_warm (provider (i + j)%nat) t) ->
    (truthy (twitchToken st) = true \/
     exists j t, ts !! j = Some t /\ task_warms (provider (i + j)%nat) t) ->
    truthy (twitchToken (snd (drain provider i ts rej st))) = true.
Proof.
  induction ts as [|t ts IH]; intros i rej st Hkeep Hwarm; simpl.
  - destruct Hwarm as [Hwarm|(j & t & Hj & _)]; [exact Hwarm | discriminate].
  - assert (Hk0 : task_keeps_warm (provider i) t).
    { specialize (Hkeep 0%nat t eq_refl). rewrite Nat.add_0_r in Hkeep. exact Hkeep. }
    assert (Hnext : truthy (twitchToken (snd (finish (provider i) t st))) = true \/
                    exists j t2, ts !! j = Some t2 /\ task_warms (provider (S i + j)%nat) t2).
    { destruct Hwarm as [Hwarm|(j & t2 & Hj & Hwarms)].
      - left. apply finish_keeps_warm; assumption.
      - destruct j as [|j]; simpl in Hj.
        + injection Hj as <-. rewrite Nat.add_0_r in Hwarms. left.
          apply finish_warms; assumption.
        + right. exists j, t2. split; [exact Hj|].
          replace (S i + j)%nat with (i + S j)%nat by lia. exact Hwarms. }
    destruct (finish (provider i) t st) as [o st1]. simpl in Hnext.
    specialize (IH (S i) (note_rejection (Settled o) rej) st1).
    destruct (drain provider (S i) ts (note_rejection (Settled o) rej) st1)
      as [[os rej'] st'].
    simpl in *. apply IH; [|exact Hnext].
    intros j t2 Hj. replace (S (i + j))%nat with (i + S j)%nat by lia.
    apply (Hkeep (S j)). exact Hj.
Qed.

End WarmPool.

Lemma trendingEntry_start_warm (net : Network) (game : RawgGame) (st : State) :
  (exists token, net PostTwitchToken = Fulfilled token /\ truthy token = true) ->
  let t := fst (advance (trendingEntry game) st) in
  task_keeps_warm net t /\
  (truthy (twitchToken st) = false -> truthy (game_name game) = true ->
   task_warms net t).
Proof.
  intros (token & Hnet & Htok). cbv zeta.
  unfold trendingEntry, fetchLiveViewers, getTwitchAccessToken.
  destruct (truthy (game_name game)); simpl.
  - destruct (truthy (twitchToken st)); simpl.
    + split; [|discriminate].
      destruct (net (GetTwitchGames (game_name game) (twitchToken st)))
        as [[|first others]|e]; simpl; auto.
      destruct (net (GetTwitchStreams (twitch_id first) (twitchToken st))); simpl; auto.
    + rewrite Hnet. simpl. split.
      * split; [exact Htok|]. intros v.
        destruct (net (GetTwitchGames (game_name game) v))
          as [[|first others]|e]; simpl; auto.
        destruct (net (GetTwitchStreams (twitch_id first) v)); simpl; auto.
      * intros _ _ st'. exact Htok.
  - split; [exact I|]. intros _. discriminate.
Qed.

Lemma start_all_warm (provider : nat -> Network) (games : list RawgGame) :
  (forall i, exists token,
      provider i PostTwitchToken = Fulfilled token /\ truthy token = true) ->
  forall (off : nat) (rej : option Exn) (st : State),
    let p := start_all (map trendingEntry games) rej st in
    (forall j t, tasks p !! j = Some t -> task_keeps_warm (provider (off + j)%nat) t) /\
    twitchToken (pool_state p) = twitchToken st /\
    (truthy (twitchToken st) = false ->
     forall j game,
       games !! j = Some game -> truthy (game_name game) = true ->
       exists t, tasks p !! j = Some t /\ task_warms (provider (off + j)%nat) t).
Proof.
  intros Hok. induction games as [|game games IH]; intros off rej st; cbv zeta.
  - simpl. split; [intros j t [=]|]. split; [reflexivity|]. intros _ j game [=].
  - cbn [map start_all].
    destruct (trendingEntry_start_warm (provider off) game st (Hok off)) as [Hk Hw].
    pose proof (quiet_start_trendingEntry game st) as Htok.
    destruct (advance (trendingEntry game) st) as [t st1]. simpl in Hk, Hw, Htok.
    destruct (IH (S off) (note_rejection t rej) st1) as (Hkeep & Htok' & Hwarm).
    simpl. split; [|split].
    + intros [|j] t2; simpl.
      * intros [= <-]. rewrite Nat.add_0_r. exact Hk.
      * intros Hj. replace (off + S j)%nat with (S off + j)%nat by lia.
        apply Hkeep. exact Hj.
    + congruence.
    + intros Hcold [|j] g; simpl.
      * intros [= <-] Hname. exists t. rewrite Nat.add_0_r. auto.
      * intros Hj Hname. replace (off + S j)%nat with (S off + j)%nat by lia.
        assert (Hcold1 : truthy (twitchToken st1) = false) by congruence.
        exact (Hwarm Hcold1 j g Hj Hname).
Qed.

Lemma named_lookup (games : list RawgGame) :
  named games <> [] ->
  exists j game, games !! j = Some game /\ truthy (game_name game) = true.
Proof.
  unfold named. induction games as [|game games IH]; simpl; [congruence|].
  destruct (truthy (game_name game)) eqn:E.
  - intros _. exists 0%nat, game. auto.
  - intros H. destruct (IH H) as (j & g & Hj & Hg). exists (S j), g. auto.
Qed.

(** X15: when the token exchanges succeed with non-empty tokens, a fan-out
    over a catalog with at least one named game leaves a credential in the
    cache, whatever the order of arrival (and a credential already cached
    stays one); the lookups that follow exchange no token. *)
Theorem fanout_warms_cache (rawg : Network) (twitch : nat -> Network)
    (arrivals : list nat) (st : State) (games : list RawgGame) :
  rawg (GetRawgGames "-added" 5) = Fulfilled games ->
  (forall i, exists token,
      twitch i PostTwitchToken = Fulfilled token /\ truthy token = true) ->
  truthy (twitchToken st) = true \/ named games <> [] ->
  let st' := snd (fetchTrendingGames rawg twitch arrivals st) in
  truthy (twitchToken st') = true /\
  forall (provider : nat -> Network) (k : nat) (names : list JsVal),
    token_fetches (snd (lookups provider k names st')) = token_fetches st'.
Proof.
  intros Hnet Hok Hsome. cbv zeta.
  assert (Hwarm : truthy (twitchToken (snd (fetchTrendingGames rawg twitch arrivals st)))
                  = true).
  { unfold fetchTrendingGames, await_axios. simpl. rewrite Hnet. simpl.
    unfold promise_all.
    set (st1 := issue (GetRawgGames "-added" 5) st).
    destruct (start_all_warm twitch games Hok 0%nat None st1) as (Hkeep & Htok & Hw).
    set (p0 := start_all (map trendingEntry games) None st1) in *.
    assert (Hinit : truthy (twitchToken (pool_state p0)) = true \/
                    exists j t, tasks p0 !! j = Some t /\ task_warms (twitch j) t).
    { destruct (truthy (twitchToken st)) eqn:Hc.
      - left. rewrite Htok. exact Hc.
      - right. destruct Hsome as [Hsome|Hsome]; [discriminate|].
        destruct (named_lookup games Hsome) as (j & game & Hj & Hname).
        destruct (Hw Hc j game Hj Hname) as (t & Ht & Hwarms). eauto. }
    destruct (arrivals_warm twitch arrivals p0 Hkeep Hinit) as [Hkeep' Hwarm'].
    pose proof (drain_warm twitch _ 0%nat
                  (rejection (fold_left (deliver twitch) arrivals p0))
                  (pool_state (fold_left (deliver twitch) arrivals p0))
                  Hkeep' Hwarm') as Hd.
    destruct (drain twitch 0%nat _ _ _) as [[os rej] st'].
    simpl in Hd. destruct rej; exact Hd. }
  split; [exact Hwarm|].
  intros provider k names. apply (lookups_warm provider k names _ Hwarm).
Qed.

Lemma fanout_warms_cache_witness :
  let st' := snd (fetchTrendingGames (healthy []) (fun _ => healthy [120; 80; 300])
                                     [1; 0; 0; 1]%nat cold) in
  truthy (twitchToken st') = true /\
  forall (provider : nat -> Network) (k : nat) (names : list JsVal),
    token_fetches (snd (lookups provider k names st')) = token_fetches st'.
Proof.
  apply (fanout_warms_cache (healthy []) (fun _ => healthy [120; 80; 300])
           [1; 0; 0; 1]%nat cold
           [ game_with 1 "Alpha" ["Action"; "RPG"]; game_with 2 "Beta" ["Action"] ]).
  - reflexivity.
  - intros i. exists (VStr "tok"). split; reflexivity.
  - right. discriminate.
Defined.
